(** * AGIPO: the PokeAPI catalog client and the AR capture screen

    A shallow embedding of [src/api/pokeAPI.ts] and of [takeCapture] from
    [src/screens/ARScreen.tsx], and the properties of the specification
    checked against it.

    The JavaScript run time is modelled as far as the two files use it:
    - run-time values ([value], with [undefined]) and JSON documents
      ([json], what [JSON.parse] can produce and what a response body holds);
    - [AsyncStorage] as a finite map from keys to stored texts, whose reads
      and writes may be rejected by the platform;
    - [fetch], the camera, the clock and [Platform.OS] as an environment;
    - exceptions and [try]/[catch] as an error monad over the store, which
      also logs every effect the code performs. *)

From Stdlib Require Import ZArith List Bool String.
From stdpp Require Import base option list strings pretty gmap.

Local Open Scope string_scope.
Local Open Scope Z_scope.

(** ** JSON documents and run-time values *)

Module Js.

Unset Elimination Schemes.

(** A JSON document.  Numbers are the integer literals the catalog and the
    screen exchange (ids, weights, heights, epoch milliseconds), kept
    exact: the rounding of a literal to a double, and a literal too large
    for one, are outside the model, and nothing below is stated about
    them. *)
Inductive json : Type :=
| JNull
| JBool (b : bool)
| JNum (n : Z)
| JStr (s : string)
| JArr (items : list json)
| JObj (fields : list (string * json)).

(** A run-time value: a JSON-like tree that may also hold [undefined]. *)
Inductive value : Type :=
| VUndef
| VNull
| VBool (b : bool)
| VNum (n : Z)
| VStr (s : string)
| VArr (items : list value)
| VObj (fields : list (string * value)).

Set Elimination Schemes.

(** Induction over the array items and the property values. *)
Definition json_nested_ind (P : json → Prop)
    (HNull : P JNull) (HBool : ∀ b, P (JBool b)) (HNum : ∀ n, P (JNum n))
    (HStr : ∀ s, P (JStr s))
    (HArr : ∀ items, Forall P items → P (JArr items))
    (HObj : ∀ fields, Forall (λ kv, P (snd kv)) fields → P (JObj fields)) :
  ∀ j, P j :=
  fix go (j : json) : P j :=
    match j with
    | JNull => HNull
    | JBool b => HBool b
    | JNum n => HNum n
    | JStr s => HStr s
    | JArr items =>
        HArr items
          ((fix all (l : list json) : Forall P l :=
              match l with
              | [] => @List.Forall_nil _ P
              | x :: rest => @List.Forall_cons _ P x rest (go x) (all rest)
              end) items)
    | JObj fields =>
        HObj fields
          ((fix all (l : list (string * json)) : Forall (λ kv, P (snd kv)) l :=
              match l with
              | [] => @List.Forall_nil _ _
              | kv :: rest => @List.Forall_cons _ _ kv rest (go (snd kv)) (all rest)
              end) fields)
    end.

Definition value_nested_ind (P : value → Prop)
    (HUndef : P VUndef) (HNull : P VNull) (HBool : ∀ b, P (VBool b))
    (HNum : ∀ n, P (VNum n)) (HStr : ∀ s, P (VStr s))
    (HArr : ∀ items, Forall P items → P (VArr items))
    (HObj : ∀ fields, Forall (λ kv, P (snd kv)) fields → P (VObj fields)) :
  ∀ v, P v :=
  fix go (v : value) : P v :=
    match v with
    | VUndef => HUndef
    | VNull => HNull
    | VBool b => HBool b
    | VNum n => HNum n
    | VStr s => HStr s
    | VArr items =>
        HArr items
          ((fix all (l : list value) : Forall P l :=
              match l with
              | [] => @List.Forall_nil _ P
              | x :: rest => @List.Forall_cons _ P x rest (go x) (all rest)
              end) items)
    | VObj fields =>
        HObj fields
          ((fix all (l : list (string * value)) : Forall (λ kv, P (snd kv)) l :=
              match l with
              | [] => @List.Forall_nil _ _
              | kv :: rest => @List.Forall_cons _ _ kv rest (go (snd kv)) (all rest)
              end) fields)
    end.

(** What a thrown exception is; the code never inspects it. *)
Inductive JsError : Type :=
| TypeError
| SyntaxError
| NetworkError
| StorageError
| CameraError
| Error (message : string).

Inductive Result (A : Type) : Type :=
| Ok (a : A)
| Throw (e : JsError).
Arguments Ok {A} a.
Arguments Throw {A} e.

Definition rbind {A B} (r : Result A) (k : A → Result B) : Result B :=
  match r with
  | Ok a => k a
  | Throw e => Throw e
  end.

Notation "'let?' x := r 'in' k" := (rbind r (λ x, k))
  (at level 10, x name, r at level 100, k at level 200).

(** The result of [JSON.parse] on the text of document [j]. *)
Fixpoint of_json (j : json) : value :=
  match j with
  | JNull => VNull
  | JBool b => VBool b
  | JNum n => VNum n
  | JStr s => VStr s
  | JArr items => VArr (map of_json items)
  | JObj fields => VObj (map (λ kv, (fst kv, of_json (snd kv))) fields)
  end.

(** The document [JSON.stringify] writes for a value: a property holding
    [undefined] is left out, [undefined] inside an array is written [null].
    (At top level [JSON.stringify(undefined)] is [undefined]; the code only
    ever passes arrays and object literals.) *)
Fixpoint to_json (v : value) : json :=
  match v with
  | VUndef => JNull
  | VNull => JNull
  | VBool b => JBool b
  | VNum n => JNum n
  | VStr s => JStr s
  | VArr items => JArr (map to_json items)
  | VObj fields =>
      JObj ((fix props (fs : list (string * value)) : list (string * json) :=
               match fs with
               | [] => []
               | (_, VUndef) :: rest => props rest
               | (k, x) :: rest => (k, to_json x) :: props rest
               end) fields)
  end.

Definition nullish (v : value) : bool :=
  match v with
  | VUndef | VNull => true
  | _ => false
  end.

(** [ToBoolean]: what [if (v)] and [v || w] test. *)
Definition truthy (v : value) : bool :=
  match v with
  | VUndef | VNull => false
  | VBool b => b
  | VNum n => negb (n =? 0)
  | VStr s => negb (String.eqb s "")
  | VArr _ | VObj _ => true
  end.

(** [a || b] *)
Definition js_or (a b : value) : value := if truthy a then a else b.

Fixpoint assoc (k : string) (fs : list (string * value)) : value :=
  match fs with
  | [] => VUndef
  | (k', x) :: rest => if String.eqb k k' then x else assoc k rest
  end.

(** The property [k] of a value that is neither [null] nor [undefined].
    None of the property names the code reads is a built-in member of a
    string, number, boolean or array, so those yield [undefined]. *)
Definition own_prop (v : value) (k : string) : value :=
  match v with
  | VObj fs => assoc k fs
  | _ => VUndef
  end.

(** [v.k] *)
Definition get_prop (v : value) (k : string) : Result value :=
  if nullish v then Throw TypeError else Ok (own_prop v k).

(** [v?.k] *)
Definition opt_prop (v : value) (k : string) : value :=
  if nullish v then VUndef else own_prop v k.

Fixpoint mapR {A B} (f : A → Result B) (l : list A) : Result (list B) :=
  match l with
  | [] => Ok []
  | x :: rest =>
      let? y := f x in
      let? ys := mapR f rest in
      Ok (y :: ys)
  end.

(** [v.map(f)]: only an array has a callable [map]. *)
Definition array_map (f : value → Result value) (v : value) : Result value :=
  match v with
  | VArr items => let? ys := mapR f items in Ok (VArr ys)
  | _ => Throw TypeError
  end.

(** The receiver of [v.map(callback)] when the callback is asynchronous:
    the items the promises are made for. *)
Definition array_items (v : value) : Result (list value) :=
  match v with
  | VArr items => Ok items
  | _ => Throw TypeError
  end.

(** [v !== null] *)
Definition not_null (v : value) : bool :=
  match v with
  | VNull => false
  | _ => true
  end.

(** [v.push(x)], giving the array after the push. *)
Definition array_push (v x : value) : Result value :=
  match v with
  | VArr items => Ok (VArr (items ++ [x]))
  | _ => Throw TypeError
  end.

Definition join_comma (parts : list string) : string :=
  match parts with
  | [] => ""
  | p :: rest => fold_left (λ acc q, acc +:+ "," +:+ q) rest p
  end.

(** [ToString], as a template literal and [fetch] apply it. *)
Fixpoint ToString (v : value) : string :=
  match v with
  | VUndef => "undefined"
  | VNull => "null"
  | VBool true => "true"
  | VBool false => "false"
  | VNum n => pretty n
  | VStr s => s
  | VArr items =>
      join_comma (map (λ x, if nullish x then "" else ToString x) items)
  | VObj _ => "[object Object]"
  end.

End Js.
Export Js.

(** ** The platform: storage, network, camera, clock *)

Module Runtime.

(** A string held by [AsyncStorage].  The code only tests a stored string
    for emptiness and hands it to [JSON.parse], so a JSON text is kept as
    the document it denotes (never empty) and [RawText] stands for the
    strings [JSON.parse] rejects, the empty one among them. *)
Inductive text : Type :=
| JsonText (j : json)
| RawText (s : string).

(** [if (s)] on a stored string. *)
Definition text_truthy (t : text) : bool :=
  match t with
  | JsonText _ => true
  | RawText s => negb (String.eqb s "")
  end.

Definition JSON_parse (t : text) : Result value :=
  match t with
  | JsonText j => Ok (of_json j)
  | RawText _ => Throw SyntaxError
  end.

Definition JSON_stringify (v : value) : text := JsonText (to_json v).

(** An HTTP response: the [ok] flag, and the document [json()] resolves to
    ([None] when the body does not parse). *)
Record Response : Type := mkResponse {
  ok : bool;
  body : option json;
}.

Inductive ConsoleLevel : Type := Log | Warn | Err.

(** The effects the code performs, in the order it performs them. *)
Inductive Event : Type :=
| EvGetItem (key : string) (accepted : bool)
| EvSetItem (key : string) (val : text) (accepted : bool)
| EvFetch (url : string)
| EvTakePhoto (flash : string)
| EvAlert (title message : string)
| EvConsole (level : ConsoleLevel) (message : string).

(** How the platform answers during one call of an exported function. *)
Record Env : Type := mkEnv {
  (** does [AsyncStorage.getItem key] resolve (or reject)? *)
  storage_read_ok : string → bool;
  (** does [AsyncStorage.setItem key _] resolve (or reject)? *)
  storage_write_ok : string → bool;
  (** the answer to [fetch url]; [None] when the request itself fails *)
  http : string → option Response;
  (** the path of the file [takePhoto] resolves to; [None] when it rejects *)
  camera_takePhoto : option string;
  (** [Date.now()] *)
  Date_now : Z;
  (** [Platform.OS] *)
  Platform_OS : string;
}.

Record Outcome (A : Type) : Type := mkOutcome {
  res : Result A;
  st : gmap string text;
  log : list Event;
}.
Arguments mkOutcome {A} res st log.
Arguments res {A} o.
Arguments st {A} o.
Arguments log {A} o.

(** An asynchronous computation: it runs against the platform and the
    store, and ends with a value or a thrown exception. *)
Definition M (A : Type) : Type := Env → gmap string text → Outcome A.

Definition ret {A} (a : A) : M A := λ _ s, mkOutcome (Ok a) s [].

Definition throw {A} (e : JsError) : M A := λ _ s, mkOutcome (Throw e) s [].

Definition bind {A B} (m : M A) (k : A → M B) : M B := λ env s,
  match m env s with
  | mkOutcome (Ok a) s1 l1 =>
      match k a env s1 with
      | mkOutcome r s2 l2 => mkOutcome r s2 (l1 ++ l2)
      end
  | mkOutcome (Throw e) s1 l1 => mkOutcome (Throw e) s1 l1
  end.

(** [try { m } catch (e) { handler e }]: what [m] did before it threw stays
    done. *)
Definition try_catch {A} (m : M A) (handler : JsError → M A) : M A := λ env s,
  match m env s with
  | mkOutcome (Ok a) s1 l1 => mkOutcome (Ok a) s1 l1
  | mkOutcome (Throw e) s1 l1 =>
      match handler e env s1 with
      | mkOutcome r s2 l2 => mkOutcome r s2 (l1 ++ l2)
      end
  end.

Definition lift {A} (r : Result A) : M A := λ _ s, mkOutcome r s [].

Definition emit (e : Event) : M unit := λ _ s, mkOutcome (Ok tt) s [e].

Notation "'let*' x := m 'in' k" := (bind m (λ x, k))
  (at level 10, x name, m at level 100, k at level 200).

Definition AsyncStorage_getItem (key : string) : M (option text) := λ env s,
  if storage_read_ok env key
  then mkOutcome (Ok (s !! key)) s [EvGetItem key true]
  else mkOutcome (Throw StorageError) s [EvGetItem key false].

(** A rejected write leaves the entry as it was. *)
Definition AsyncStorage_setItem (key : string) (val : text) : M unit := λ env s,
  if storage_write_ok env key
  then mkOutcome (Ok tt) (<[key := val]> s) [EvSetItem key val true]
  else mkOutcome (Throw StorageError) s [EvSetItem key val false].

(** [fetch(input)]: the request goes to [String(input)]. *)
Definition fetch (input : value) : M Response := λ env s,
  let url := ToString input in
  match http env url with
  | Some r => mkOutcome (Ok r) s [EvFetch url]
  | None => mkOutcome (Throw NetworkError) s [EvFetch url]
  end.

(** [response.json()] *)
Definition Response_json (r : Response) : M value :=
  match body r with
  | Some j => ret (of_json j)
  | None => throw SyntaxError
  end.

Definition console (level : ConsoleLevel) (message : string) : M unit :=
  emit (EvConsole level message).

Definition Alert_alert (title message : string) : M unit :=
  emit (EvAlert title message).

(** [camera.takePhoto({flash})], giving [photo.path]. *)
Definition Camera_takePhoto (flash : string) : M string := λ env s,
  match camera_takePhoto env with
  | Some path => mkOutcome (Ok path) s [EvTakePhoto flash]
  | None => mkOutcome (Throw CameraError) s [EvTakePhoto flash]
  end.

Definition now : M Z := λ env s, mkOutcome (Ok (Date_now env)) s [].

Definition platform_os : M string := λ env s, mkOutcome (Ok (Platform_OS env)) s [].

(** [Promise.all] over calls started together: every call runs to its end,
    in array order; the batch rejects with the first rejection, after which
    the other calls have still had their effects. *)
Fixpoint Promise_all {A} (calls : list (M A)) : M (list A) :=
  match calls with
  | [] => ret []
  | c :: rest => λ env s,
      match c env s with
      | mkOutcome r1 s1 l1 =>
          match Promise_all rest env s1 with
          | mkOutcome r2 s2 l2 =>
              mkOutcome
                (match r1, r2 with
                 | Ok a, Ok l => Ok (a :: l)
                 | Ok _, Throw e => Throw e
                 | Throw e, _ => Throw e
                 end)
                s2 (l1 ++ l2)
          end
      end
  end.

Definition is_fetch (e : Event) : bool :=
  match e with EvFetch _ => true | _ => false end.

Definition is_storage (e : Event) : bool :=
  match e with EvGetItem _ _ | EvSetItem _ _ _ => true | _ => false end.

(** The number of network calls in a log. *)
Definition network_calls (l : list Event) : nat := length (List.filter is_fetch l).

End Runtime.
Export Runtime.

(** ** [src/api/pokeAPI.ts] *)

Module PokeAPI.

Definition POKEAPI_BASE_URL : string := "https://pokeapi.co/api/v2".
Definition POKEMON_LIST_CACHE_KEY : string := "pokemon_list_cache_v2".
Definition POKEMON_DETAIL_CACHE_PREFIX : string := "pokemon_detail_".
Definition INITIAL_POKEMON_LIMIT : Z := 21.

(** [`${POKEAPI_BASE_URL}/pokemon?limit=${INITIAL_POKEMON_LIMIT}&offset=0`] *)
Definition list_url : string :=
  POKEAPI_BASE_URL +:+ "/pokemon?limit=" +:+ pretty INITIAL_POKEMON_LIMIT
                   +:+ "&offset=0".

(** [`${POKEMON_DETAIL_CACHE_PREFIX}${idOrName}`] *)
Definition detail_cache_key (idOrName : value) : string :=
  POKEMON_DETAIL_CACHE_PREFIX +:+ ToString idOrName.

(** [`${POKEAPI_BASE_URL}/pokemon/${idOrName}`] *)
Definition detail_url (idOrName : value) : string :=
  POKEAPI_BASE_URL +:+ "/pokemon/" +:+ ToString idOrName.

(** The object literal [pokemonDetail] of [fetchPokemonDetail]. *)
Definition pokemonDetail_of (detailData speciesData : value) : Result value :=
  let? id := get_prop detailData "id" in
  let? name := get_prop detailData "name" in
  let? types :=
    (let? ts := get_prop detailData "types" in
     array_map (λ t, let? ty := get_prop t "type" in get_prop ty "name") ts) in
  let? abilities :=
    (let? abs := get_prop detailData "abilities" in
     array_map (λ a, let? ab := get_prop a "ability" in get_prop ab "name") abs) in
  let? stats := get_prop detailData "stats" in
  let? spriteUrl :=
    (let? sprites := get_prop detailData "sprites" in
     get_prop sprites "front_default") in
  let? weight := get_prop detailData "weight" in
  let? height := get_prop detailData "height" in
  Ok (VObj [("id", id); ("name", name); ("types", types);
            ("abilities", abilities); ("stats", stats);
            ("spriteUrl", spriteUrl); ("speciesData", speciesData);
            ("weight", weight); ("height", height)]).

(** The species block: [let speciesData = {}; try { ... } catch (err) { ... }]. *)
Definition fetch_speciesData (detailData : value) : M value :=
  try_catch
    (let* species := lift (get_prop detailData "species") in
     let* url := lift (get_prop species "url") in
     let* speciesResponse := fetch url in
     Response_json speciesResponse)
    (λ err,
       let* _ := console Warn "Failed to fetch species data" in
       ret (VObj [])).

(** The cache check of [fetchPokemonDetail]: [Some v] when it returns [v]. *)
Definition detail_from_cache (cacheKey : string) : M (option value) :=
  try_catch
    (let* cachedDetail := AsyncStorage_getItem cacheKey in
     match cachedDetail with
     | Some t =>
         if text_truthy t
         then let* v := lift (JSON_parse t) in ret (Some v)
         else ret None
     | None => ret None
     end)
    (λ e, ret None).

(** The second [try] of [fetchPokemonDetail]. *)
Definition detail_from_network (idOrName : value) (cacheKey : string) : M value :=
  try_catch
    (let* detailResponse := fetch (VStr (detail_url idOrName)) in
     if negb (ok detailResponse)
     then throw (Error "Failed to fetch Pokémon details")
     else
       let* detailData := Response_json detailResponse in
       let* speciesData := fetch_speciesData detailData in
       let* pokemonDetail := lift (pokemonDetail_of detailData speciesData) in
       let* _ := AsyncStorage_setItem cacheKey (JSON_stringify pokemonDetail) in
       ret pokemonDetail)
    (λ error,
       let* _ := console Err ("Error fetching Pokémon detail for "
                              +:+ ToString idOrName +:+ ":") in
       ret VNull).

Definition fetchPokemonDetail (idOrName : value) : M value :=
  let cacheKey := detail_cache_key idOrName in
  let* cached := detail_from_cache cacheKey in
  match cached with
  | Some v => ret v
  | None => detail_from_network idOrName cacheKey
  end.

(** The asynchronous callback of [listData.results.map]. *)
Definition detail_promise (item : value) : M value :=
  let* name := lift (get_prop item "name") in
  fetchPokemonDetail name.

(** Part A of [fetchPokemonList]: [Some v] when it returns [v]. *)
Definition list_from_cache : M (option value) :=
  try_catch
    (let* cachedList := AsyncStorage_getItem POKEMON_LIST_CACHE_KEY in
     match cachedList with
     | Some t =>
         if text_truthy t
         then
           let* _ := console Log "Returning full Pokedex from cache." in
           let* v := lift (JSON_parse t) in
           ret (Some v)
         else ret None
     | None => ret None
     end)
    (λ e,
       let* _ := console Warn "Could not read list cache:" in
       ret None).

(** Parts B and C of [fetchPokemonList]. *)
Definition list_from_network : M value :=
  try_catch
    (let* _ := console Log "Fetching fresh Pokedex list..." in
     let* listResponse := fetch (VStr list_url) in
     if negb (ok listResponse)
     then throw (Error "Network response was not ok")
     else
       let* listData := Response_json listResponse in
       let* entries := lift (get_prop listData "results") in
       let* items := lift (array_items entries) in
       let promises := map detail_promise items in
       let* results := Promise_all promises in
       let validResults := List.filter not_null results in
       let* _ := AsyncStorage_setItem POKEMON_LIST_CACHE_KEY
                   (JSON_stringify (VArr validResults)) in
       let* _ := console Log "Fetched and cached new full list." in
       ret (VArr validResults))
    (λ error,
       let* _ := console Err "Error fetching Pokémon list:" in
       ret (VArr [])).

Definition fetchPokemonList : M value :=
  let* cached := list_from_cache in
  match cached with
  | Some v => ret v
  | None => list_from_network
  end.

Definition getPokemonBasic (idOrName : value) : M value :=
  try_catch
    (let* resp := fetch (VStr ("https://pokeapi.co/api/v2/pokemon/"
                               +:+ ToString idOrName)) in
     if negb (ok resp)
     then throw (Error "Not found")
     else
       let* json := Response_json resp in
       let* official :=
         lift (let? sprites := get_prop json "sprites" in
               Ok (opt_prop (opt_prop (opt_prop sprites "other")
                                      "official-artwork") "front_default")) in
       let* front :=
         lift (let? sprites := get_prop json "sprites" in
               Ok (opt_prop sprites "front_default")) in
       let sprite := js_or (js_or official front) VNull in
       let* id := lift (get_prop json "id") in
       let* name := lift (get_prop json "name") in
       let* mapped :=
         lift (let? ts := get_prop json "types" in
               if nullish ts then Ok VUndef
               else array_map (λ t, let? ty := get_prop t "type" in
                                    Ok (opt_prop ty "name")) ts) in
       let types := js_or mapped (VArr []) in
       ret (VObj [("id", id); ("name", name); ("sprite", sprite);
                  ("types", types)]))
    (λ err,
       let* _ := console Warn "poke api error" in
       ret VNull).

End PokeAPI.
Export PokeAPI.

(** ** [src/screens/ARScreen.tsx] *)

Module ARScreen.

(** What [takeCapture] closes over: the camera ref and the two pieces of
    component state. *)
Record Screen : Type := mkScreen {
  (** [camera.current] is set *)
  camera_current : bool;
  selectedPokemonId : Z;
  (** [string | null] *)
  selectedPokemonSprite : option string;
}.

Definition sprite_value (sprite : option string) : value :=
  match sprite with
  | Some url => VStr url
  | None => VNull
  end.

(** [Platform.OS === "android" ? "file://" + photo.path : photo.path] *)
Definition normalize_photoUri (os path : string) : string :=
  if String.eqb os "android" then "file://" +:+ path else path.

(** The object literal [entry : CapturedMeta]. *)
Definition capture_entry (scr : Screen) (photoUri : string) (timestamp : Z) : value :=
  VObj [("id", VNum (selectedPokemonId scr));
        ("name", VStr ("pokemon-" +:+ ToString (VNum (selectedPokemonId scr))));
        ("sprite", sprite_value (selectedPokemonSprite scr));
        ("photoUri", VStr photoUri);
        ("timestamp", VNum timestamp)].

Definition takeCapture (scr : Screen) : M unit :=
  if negb (camera_current scr) then ret tt
  else
    try_catch
      (let* path := Camera_takePhoto "off" in
       let* os := platform_os in
       let photoUri := normalize_photoUri os path in
       let* timestamp := now in
       let entry := capture_entry scr photoUri timestamp in
       let* existingRaw := AsyncStorage_getItem "captures" in
       let* existing :=
         match existingRaw with
         | Some t => if text_truthy t then lift (JSON_parse t) else ret (VArr [])
         | None => ret (VArr [])
         end in
       let* existing' := lift (array_push existing entry) in
       let* _ := AsyncStorage_setItem "captures" (JSON_stringify existing') in
       Alert_alert "Captured!" "Pokemon saved to your gallery.")
      (λ err,
         let* _ := console Err "capture err" in
         Alert_alert "Error" "Could not take picture. Check camera permission.").

End ARScreen.
Export ARScreen.

(** ** What the properties are stated with *)

Module Observe.

(** An accepted write to [key]. *)
Definition writes_key (key : string) (e : Event) : bool :=
  match e with
  | EvSetItem k _ true => String.eqb key k
  | _ => false
  end.

(** The log holds an accepted write to [key]. *)
Definition wrote (key : string) (l : list Event) : bool :=
  existsb (writes_key key) l.

(** The document a request to [url] that must be [ok] obtains; [None] when
    the request fails, the response is not [ok], or the body does not
    parse. *)
Definition ok_document (env : Env) (url : string) : option json :=
  match http env url with
  | Some r => if ok r then body r else None
  | None => None
  end.

(** The index fetch of [fetchPokemonList]. *)
Definition index_response (env : Env) : option json :=
  ok_document env list_url.

(** The primary detail fetch of [fetchPokemonDetail]. *)
Definition primary_response (env : Env) (idOrName : value) : option json :=
  ok_document env (detail_url idOrName).

(** The fetch of [getPokemonBasic]. *)
Definition basic_response (env : Env) (idOrName : value) : option json :=
  ok_document env ("https://pokeapi.co/api/v2/pokemon/" +:+ ToString idOrName).

(** What the species fetch obtains; [None] when the record names no species
    URL, the request fails, or the body does not parse. *)
Definition species_response (env : Env) (detailData : value) : option json :=
  match (let? species := get_prop detailData "species" in
         get_prop species "url") with
  | Ok url =>
      match http env (ToString url) with
      | Some r => body r
      | None => None
      end
  | Throw _ => None
  end.

(** The [speciesData] of the entry: the species document, or the empty
    object when none was obtained. *)
Definition speciesData_of (env : Env) (detailData : value) : value :=
  match species_response env detailData with
  | Some j => of_json j
  | None => VObj []
  end.

(** An array whose items all carry the property [k]. *)
Definition named_items (k : string) (v : value) : bool :=
  match v with
  | VArr items =>
      forallb (λ t, negb (nullish t) && negb (nullish (own_prop t k))) items
  | _ => false
  end.

(** A well-formed primary record: [types] and [abilities] are arrays whose
    items carry a [type] and an [ability], and [sprites] is there. *)
Definition detail_well_formed (detailData : value) : bool :=
  negb (nullish detailData)
  && named_items "type" (own_prop detailData "types")
  && named_items "ability" (own_prop detailData "abilities")
  && negb (nullish (own_prop detailData "sprites")).

(** The entry assembled from a well-formed record. *)
Definition detail_entry (detailData speciesData : value) : value :=
  VObj [("id", own_prop detailData "id");
        ("name", own_prop detailData "name");
        ("types", VArr (map (λ t, own_prop (own_prop t "type") "name")
                         (match own_prop detailData "types" with
                          | VArr items => items
                          | _ => []
                          end)));
        ("abilities", VArr (map (λ a, own_prop (own_prop a "ability") "name")
                             (match own_prop detailData "abilities" with
                              | VArr items => items
                              | _ => []
                              end)));
        ("stats", own_prop detailData "stats");
        ("spriteUrl", own_prop (own_prop detailData "sprites") "front_default");
        ("speciesData", speciesData);
        ("weight", own_prop detailData "weight");
        ("height", own_prop detailData "height")].

(** The sprite policy in the words of the specification: the official
    artwork if present, else the default front sprite if present, else
    null.  A field is present when it holds a usable value, one that
    JavaScript counts as true. *)
Definition sprite_policy (official front : value) : value :=
  if truthy official then official
  else if truthy front then front
  else VNull.

(** The two image fields of a basic record. *)
Definition official_artwork (record : value) : value :=
  opt_prop (opt_prop (opt_prop (own_prop record "sprites") "other")
                     "official-artwork") "front_default".

Definition front_sprite (record : value) : value :=
  opt_prop (own_prop record "sprites") "front_default".

(** The persisted capture list: absent and empty strings read as the empty
    list; [None] when the stored string is no JSON array. *)
Definition captures_of (s : gmap string text) : option (list json) :=
  match s !! "captures" with
  | None => Some []
  | Some (RawText raw) => if String.eqb raw "" then Some [] else None
  | Some (JsonText (JArr records)) => Some records
  | Some (JsonText _) => None
  end.

(** The capture operation reported success. *)
Definition captured (l : list Event) : bool :=
  existsb (λ e, match e with
                | EvAlert title _ => String.eqb title "Captured!"
                | _ => false
                end) l.

(** The record of a capture, field by field. *)
Definition capture_record (id : Z) (name : string) (sprite : option string)
    (photoUri : string) (timestamp : Z) : json :=
  JObj [("id", JNum id); ("name", JStr name);
        ("sprite", match sprite with Some url => JStr url | None => JNull end);
        ("photoUri", JStr photoUri); ("timestamp", JNum timestamp)].

(** The record a capture appends, from the screen state and the platform at
    the time of the capture: the selected id, the name made from it, the
    overlay sprite, the normalized photo URI and the clock. *)
Definition record_of (scr : Screen) (env : Env) (path : string) : json :=
  capture_record (selectedPokemonId scr)
    ("pokemon-" +:+ pretty (selectedPokemonId scr))
    (selectedPokemonSprite scr)
    (if String.eqb (Platform_OS env) "android" then "file://" +:+ path else path)
    (Date_now env).

End Observe.
Export Observe.

(** ** What [getPokemonBasic] returns, as a function of the response *)

Module BasicLookup.

(** The [types] of the basic record: [json.types?.map(...) || []]; [None]
    when the mapping throws. *)
Definition basic_types (record : value) : option value :=
  match own_prop record "types" with
  | VUndef | VNull => Some (VArr [])
  | VArr items =>
      if forallb (λ t, negb (nullish t)) items
      then Some (VArr (map (λ t, opt_prop (own_prop t "type") "name") items))
      else None
  | _ => None
  end.

(** The basic lookup: null on any failure, else the four fields with the
    sprite chosen by [sprite_policy]. *)
Definition basic_lookup_of (response : option json) : value :=
  match response with
  | None => VNull
  | Some j =>
      let record := of_json j in
      if nullish record then VNull
      else
        match basic_types record with
        | None => VNull
        | Some types =>
            VObj [("id", own_prop record "id");
                  ("name", own_prop record "name");
                  ("sprite", sprite_policy (official_artwork record)
                                           (front_sprite record));
                  ("types", types)]
        end
  end.

End BasicLookup.
Export BasicLookup.

(** ** Concrete platforms and documents *)

Module Scenario.

(** The primary response of the [fetchDetail(25)] scenario. *)
Definition pikachu_primary : json :=
  JObj [("id", JNum 25); ("name", JStr "pikachu");
        ("types", JArr [JObj [("type", JObj [("name", JStr "electric")])]]);
        ("abilities", JArr []); ("stats", JArr []);
        ("sprites", JObj [("front_default", JStr "url1")]);
        ("species", JObj [("url", JStr "url2")]);
        ("weight", JNum 60); ("height", JNum 4)].

(** Its species response. *)
Definition pikachu_species : json := JObj [("flavor_text_entries", JArr [])].

(** The entry the scenario expects. *)
Definition pikachu_entry : value :=
  VObj [("id", VNum 25); ("name", VStr "pikachu");
        ("types", VArr [VStr "electric"]); ("abilities", VArr []);
        ("stats", VArr []); ("spriteUrl", VStr "url1");
        ("speciesData", VObj [("flavor_text_entries", VArr [])]);
        ("weight", VNum 60); ("height", VNum 4)].

(** A record whose one type carries no name. *)
Definition nameless_type_primary : json :=
  JObj [("id", JNum 25); ("name", JStr "pikachu");
        ("types", JArr [JObj [("type", JObj [])]]);
        ("abilities", JArr []); ("stats", JArr []);
        ("sprites", JObj [("front_default", JStr "url1")]);
        ("species", JObj [("url", JStr "url2")]);
        ("weight", JNum 60); ("height", JNum 4)].

(** A record whose [types] is null. *)
Definition typeless_primary : json :=
  JObj [("id", JNum 25); ("name", JStr "pikachu");
        ("types", JNull);
        ("abilities", JArr []); ("stats", JArr []);
        ("sprites", JObj [("front_default", JStr "url1")]);
        ("species", JObj [("url", JStr "url2")]);
        ("weight", JNum 60); ("height", JNum 4)].

Definition respond (j : json) : option Response := Some (mkResponse true (Some j)).

(** An index page of one entry. *)
Definition pikachu_index : json :=
  JObj [("results",
         JArr [JObj [("name", JStr "pikachu");
                     ("url", JStr "https://pokeapi.co/api/v2/pokemon/25/")]])].

(** A network that serves [primary] for Pokémon 25, by id and by name, the
    species document at [url2], the index of that one entry, and nothing
    else. *)
Definition serve (primary : json) (url : string) : option Response :=
  if String.eqb url "https://pokeapi.co/api/v2/pokemon/25" then respond primary
  else if String.eqb url "https://pokeapi.co/api/v2/pokemon/pikachu"
       then respond primary
  else if String.eqb url "url2" then respond pikachu_species
  else if String.eqb url "https://pokeapi.co/api/v2/pokemon?limit=21&offset=0"
       then respond pikachu_index
  else None.

(** As [serve], with the species endpoint down. *)
Definition serve_without_species (primary : json) (url : string) : option Response :=
  if String.eqb url "url2" then None else serve primary url.

(** A platform whose storage accepts reads and writes as told. *)
Definition platform (reads writes : bool) (net : string → option Response)
    (photo : option string) (clock : Z) (os : string) : Env :=
  mkEnv (λ _, reads) (λ _, writes) net photo clock os.

(** Everything works. *)
Definition online : Env := platform true true (serve pikachu_primary) None 0 "ios".

(** The storage rejects every write. *)
Definition read_only : Env := platform true false (serve pikachu_primary) None 0 "ios".

(** The storage rejects every read. *)
Definition unreadable : Env := platform false true (serve pikachu_primary) None 0 "ios".

(** Nothing answers. *)
Definition offline : Env := platform true true (λ _, None) None 0 "ios".

(** An Android phone and an iPhone whose cameras work. *)
Definition android_phone : Env :=
  platform true true (λ _, None) (Some "/data/photos/1.jpg") 1700000000000 "android".

Definition iphone : Env :=
  platform true true (λ _, None) (Some "file:///var/photos/2.jpg") 1700000060000 "ios".

End Scenario.

(** ** The rest of [ARScreen]: the two effects and the view *)

Module ARScreenEffects.

(** The first effect: [setHasPermission(status === "granted")], from the
    status [Camera.requestCameraPermission()] resolves to. *)
Definition permission_effect (status : string) : option bool :=
  Some (String.eqb status "granted").

(** A camera device, as far as the screen looks at it. *)
Record CameraDevice : Type := mkDevice {
  device_id : string;
  position : string;
}.

(** [devices.find(d => d.position === 'back')] *)
Definition back_device (devices : list CameraDevice) : option CameraDevice :=
  List.find (λ d, String.eqb (position d) "back") devices.

(** What the component returns. *)
Inductive View : Type :=
| LoadingCamera
| NoCameraPermission
| CameraPreview (device : CameraDevice).

(** The two early returns and the camera view; [hasPermission] is
    [boolean | null]. *)
Definition render (hasPermission : option bool) (device : option CameraDevice) : View :=
  match hasPermission, device with
  | None, _ => LoadingCamera
  | Some _, None => LoadingCamera
  | Some false, Some _ => NoCameraPermission
  | Some true, Some d => CameraPreview d
  end.

(** The second effect: [Some v] when it calls [setSelectedPokemonSprite(v)],
    [None] when its [catch] runs instead. *)
Definition sprite_effect (selectedPokemonId : Z) : M (option value) :=
  try_catch
    (let* data := getPokemonBasic (VNum selectedPokemonId) in
     ret (Some (js_or (opt_prop data "sprite") VNull)))
    (λ e,
       let* _ := console Warn "Failed to fetch pokemon sprite" in
       ret None).

End ARScreenEffects.
Export ARScreenEffects.

(** ** Counting what a call did *)

Module Measure.

Definition is_write_attempt (e : Event) : bool :=
  match e with EvSetItem _ _ _ => true | _ => false end.

(** The number of [setItem] calls in a log, accepted or not. *)
Definition write_attempts (l : list Event) : nat :=
  length (List.filter is_write_attempt l).

Definition is_alert (e : Event) : bool :=
  match e with EvAlert _ _ => true | _ => false end.

(** The notices shown to the user, in order. *)
Definition alerts (l : list Event) : list Event := List.filter is_alert l.

(** The requests made, in order. *)
Definition requests (l : list Event) : list Event := List.filter is_fetch l.

(** The entries of the index page: the items of its [results] array. *)
Definition index_items (env : Env) : list value :=
  match index_response env with
  | Some j =>
      match own_prop (of_json j) "results" with
      | VArr items => items
      | _ => []
      end
  | None => []
  end.

Definition is_photo (e : Event) : bool :=
  match e with EvTakePhoto _ => true | _ => false end.

(** The photos requested, in order. *)
Definition photos (l : list Event) : list Event := List.filter is_photo l.

(** Everything a capture needs from the platform and the store: a photo, an
    accepted read, a stored value that is a list, an accepted write. *)
Definition capture_possible (env : Env) (s : gmap string text) : bool :=
  match camera_takePhoto env, captures_of s with
  | Some _, Some _ =>
      storage_read_ok env "captures" && storage_write_ok env "captures"
  | _, _ => false
  end.

End Measure.
Export Measure.

(** ** More platforms *)

Module Scenario2.

Import Scenario.

(** The document of a "not found" answer. *)
Definition not_found_doc : json := JObj [("detail", JStr "Not found.")].

(** As [serve], but the species endpoint answers 404 with a JSON body. *)
Definition serve_species_404 (primary : json) (url : string) : option Response :=
  if String.eqb url "url2" then Some (mkResponse false (Some not_found_doc))
  else serve primary url.

(** A store whose detail entry for 25 is not JSON. *)
Definition corrupt_store : gmap string text :=
  {["pokemon_detail_25" := RawText "{id:"]}.

(** A store that holds captures and nothing else. *)
Definition gallery_store : gmap string text :=
  {["captures" := JsonText (JArr [JObj [("id", JNum 7)]])]}.

(** A store whose captures entry is a JSON object, not an array. *)
Definition odd_gallery_store : gmap string text :=
  {["captures" := JsonText (JObj [])]}.

(** A phone whose storage rejects writes. *)
Definition full_phone : Env :=
  platform true false (λ _, None) (Some "/data/photos/1.jpg") 1700000000000 "android".

(** A platform whose storage rejects the write of the list cache only. *)
Definition list_write_rejected : Env :=
  mkEnv (λ _, true) (λ key, negb (String.eqb key "pokemon_list_cache_v2"))
    (serve pikachu_primary) None 0 "ios".

(** A record with both image fields. *)
Definition pikachu_with_artwork : json :=
  JObj [("id", JNum 25); ("name", JStr "pikachu");
        ("types", JArr [JObj [("type", JObj [("name", JStr "electric")])]]);
        ("sprites",
         JObj [("front_default", JStr "front.png");
               ("other",
                JObj [("official-artwork",
                       JObj [("front_default", JStr "art.png")])])])].

(** The camera devices of a phone: front first, then two back cameras. *)
Definition phone_cameras : list CameraDevice :=
  [mkDevice "front-0" "front"; mkDevice "back-0" "back"; mkDevice "back-1" "back"].

(** A phone whose camera fails. *)
Definition broken_camera_phone : Env :=
  platform true true (λ _, None) None 1700000000000 "android".

End Scenario2.

(** ** Facts about the JavaScript model *)

Section JsonFacts.

Lemma of_json_not_undefined (j : json) : of_json j ≠ VUndef.
Proof. destruct j; discriminate. Qed.

(** Writing a parsed document gives the document back. *)
Lemma to_json_of_json (j : json) : to_json (of_json j) = j.
Proof.
  induction j as [| | | |items IH|fields IH] using json_nested_ind; simpl; try reflexivity.
  - f_equal. induction IH as [|x rest Hx _ IHrest]; simpl; [reflexivity|].
    rewrite Hx, IHrest. reflexivity.
  - f_equal. induction IH as [|[k x] rest Hkv _ IHrest]; simpl in *; [reflexivity|].
    rewrite IHrest, Hkv.
    destruct (of_json x) eqn:E; try reflexivity.
    exfalso. exact (of_json_not_undefined x E).
Qed.

Lemma map_to_json_of_json (l : list json) : map to_json (map of_json l) = l.
Proof.
  induction l as [|j rest IH]; simpl; [reflexivity|].
  rewrite to_json_of_json, IH. reflexivity.
Qed.

End JsonFacts.

(** ** Facts about the platform model *)

Section RuntimeFacts.

Lemma wrote_app key l1 l2 : wrote key (l1 ++ l2) = wrote key l1 || wrote key l2.
Proof. apply existsb_app. Qed.

End RuntimeFacts.

Ltac run :=
  unfold console, Alert_alert, Response_json;
  unfold bind, try_catch, ret, throw, lift, emit,
    AsyncStorage_getItem, AsyncStorage_setItem, fetch,
    Camera_takePhoto, now, platform_os;
  cbn beta iota zeta delta [res st log app negb ToString].

Section DetailFacts.

Lemma mapR_named k items :
  forallb (λ t, negb (nullish t) && negb (nullish (own_prop t k))) items = true →
  mapR (λ t, let? x := get_prop t k in get_prop x "name") items
  = Ok (map (λ t, own_prop (own_prop t k) "name") items).
Proof.
  induction items as [|t rest IH]; simpl; intros H; [reflexivity|].
  apply andb_prop in H as [Ht Hrest]. apply andb_prop in Ht as [Ht1 Ht2].
  unfold get_prop at 1. destruct (nullish t); [discriminate|]. simpl.
  unfold get_prop at 1. destruct (nullish (own_prop t k)); [discriminate|]. simpl.
  rewrite IH by assumption. reflexivity.
Qed.

Lemma mapR_not_named k items :
  forallb (λ t, negb (nullish t) && negb (nullish (own_prop t k))) items = false →
  ∃ e, mapR (λ t, let? x := get_prop t k in get_prop x "name") items = Throw e.
Proof.
  induction items as [|t rest IH]; simpl; intros H; [discriminate|].
  unfold get_prop at 1. destruct (nullish t); simpl in *; [eauto|].
  unfold get_prop at 1. destruct (nullish (own_prop t k)); simpl in *; [eauto|].
  destruct (IH H) as [e ->]. eauto.
Qed.

Lemma array_map_named k v :
  named_items k v = true →
  array_map (λ t, let? x := get_prop t k in get_prop x "name") v
  = Ok (VArr (map (λ t, own_prop (own_prop t k) "name")
                (match v with VArr items => items | _ => [] end))).
Proof.
  destruct v; simpl; try discriminate. intros H.
  rewrite (mapR_named k) by assumption. reflexivity.
Qed.

Lemma array_map_not_named k v :
  named_items k v = false →
  ∃ e, array_map (λ t, let? x := get_prop t k in get_prop x "name") v = Throw e.
Proof.
  destruct v; simpl; eauto. intros H.
  destruct (mapR_not_named k items H) as [e ->]. eauto.
Qed.

Lemma get_prop_ok v k : nullish v = false → get_prop v k = Ok (own_prop v k).
Proof. unfold get_prop. intros ->. reflexivity. Qed.

Lemma get_prop_nullish v k : nullish v = true → get_prop v k = Throw TypeError.
Proof. unfold get_prop. intros ->. reflexivity. Qed.

(** A well-formed record is assembled into [detail_entry]. *)
Lemma pokemonDetail_of_well_formed dd sd :
  detail_well_formed dd = true →
  pokemonDetail_of dd sd = Ok (detail_entry dd sd).
Proof.
  unfold detail_well_formed, pokemonDetail_of, detail_entry. intros H.
  apply andb_prop in H as [H Hs]. apply andb_prop in H as [H Ha].
  apply andb_prop in H as [Hn Ht].
  apply negb_true_iff in Hn, Hs.
  rewrite !(get_prop_ok dd) by assumption. simpl.
  rewrite (array_map_named "type") by assumption. simpl.
  rewrite (array_map_named "ability") by assumption. simpl.
  rewrite get_prop_ok by assumption. reflexivity.
Qed.

(** Any other record makes the assembly throw. *)
Lemma pokemonDetail_of_malformed dd sd :
  detail_well_formed dd = false →
  ∃ e, pokemonDetail_of dd sd = Throw e.
Proof.
  unfold detail_well_formed, pokemonDetail_of. intros H.
  destruct (nullish dd) eqn:Hn; simpl in H.
  { rewrite !(get_prop_nullish dd) by assumption. simpl. eauto. }
  rewrite !(get_prop_ok dd) by assumption. simpl.
  destruct (named_items "type" (own_prop dd "types")) eqn:Ht; simpl in H.
  2:{ destruct (array_map_not_named "type" _ Ht) as [e ->]. simpl. eauto. }
  rewrite (array_map_named "type") by assumption. simpl.
  destruct (named_items "ability" (own_prop dd "abilities")) eqn:Ha; simpl in H.
  2:{ destruct (array_map_not_named "ability" _ Ha) as [e ->]. simpl. eauto. }
  rewrite (array_map_named "ability") by assumption. simpl.
  apply negb_false_iff in H.
  rewrite get_prop_nullish by assumption. simpl. eauto.
Qed.

Lemma fetch_speciesData_run env dd s :
  ∃ l, fetch_speciesData dd env s =
         mkOutcome (Ok (speciesData_of env dd)) s l
       ∧ (∀ key, wrote key l = false)
       ∧ List.filter is_storage l = [].
Proof.
  unfold fetch_speciesData, speciesData_of, species_response. run.
  destruct (get_prop dd "species") as [sp|e]; simpl.
  2:{ eexists; split; [reflexivity|]. split; reflexivity. }
  destruct (get_prop sp "url") as [u|e]; simpl.
  2:{ eexists; split; [reflexivity|]. split; reflexivity. }
  destruct (http env (ToString u)) as [r|]; simpl.
  2:{ eexists; split; [reflexivity|]. split; reflexivity. }
  destruct (body r) as [j|]; simpl.
  - eexists; split; [reflexivity|]. split; reflexivity.
  - eexists; split; [reflexivity|]. split; reflexivity.
Qed.

Lemma detail_from_cache_absent env s key :
  s !! key = None →
  detail_from_cache key env s
  = mkOutcome (Ok None) s [EvGetItem key (storage_read_ok env key)].
Proof.
  intros Hs. unfold detail_from_cache. run.
  destruct (storage_read_ok env key); simpl; [|reflexivity].
  rewrite Hs. reflexivity.
Qed.

Lemma detail_from_cache_hit env s key j :
  s !! key = Some (JsonText j) →
  storage_read_ok env key = true →
  detail_from_cache key env s
  = mkOutcome (Ok (Some (of_json j))) s [EvGetItem key true].
Proof.
  intros Hs Hr. unfold detail_from_cache. run.
  rewrite Hr. simpl. rewrite Hs. reflexivity.
Qed.

(** The network path of [fetchPokemonDetail], case by case. *)
Lemma detail_from_network_cases env s idOrName key :
  let o := detail_from_network idOrName key env s in
  match primary_response env idOrName with
  | Some j =>
      let dd := of_json j in
      let d := detail_entry dd (speciesData_of env dd) in
      if detail_well_formed dd && storage_write_ok env key
      then res o = Ok d ∧ st o = <[key := JSON_stringify d]> s
           ∧ wrote key (log o) = true
      else res o = Ok VNull ∧ st o = s ∧ ∀ k, wrote k (log o) = false
  | None => res o = Ok VNull ∧ st o = s ∧ ∀ k, wrote k (log o) = false
  end.
Proof.
  unfold detail_from_network, primary_response, ok_document. run.
  destruct (http env (detail_url idOrName)) as [r|]; simpl; [|auto].
  destruct (ok r); simpl; [|auto].
  destruct (body r) as [j|]; simpl; [|auto].
  destruct (fetch_speciesData_run env (of_json j) s) as (l & -> & Hw & _).
  simpl.
  destruct (detail_well_formed (of_json j)) eqn:Hwf; simpl.
  - rewrite pokemonDetail_of_well_formed by assumption. simpl.
    destruct (storage_write_ok env key); simpl.
    + repeat split. rewrite wrote_app, Hw. simpl.
      rewrite String.eqb_refl. reflexivity.
    + repeat split. intros k. rewrite !wrote_app, Hw. reflexivity.
  - destruct (pokemonDetail_of_malformed (of_json j) (speciesData_of env (of_json j)) Hwf)
      as [e ->]. simpl.
    repeat split. intros k. rewrite !wrote_app, Hw. reflexivity.
Qed.

End DetailFacts.

Section DetailRun.

Lemma detail_from_cache_run env s key :
  ∃ c b, detail_from_cache key env s = mkOutcome (Ok c) s [EvGetItem key b].
Proof.
  unfold detail_from_cache. run.
  destruct (storage_read_ok env key); simpl; [|eauto].
  destruct (s !! key) as [t|]; simpl; [|eauto].
  destruct (text_truthy t); simpl; [|eauto].
  destruct (JSON_parse t); simpl; eauto.
Qed.

(** On a key that is not cached the call is its network path. *)
Lemma fetchPokemonDetail_absent env s idOrName :
  s !! detail_cache_key idOrName = None →
  let o := detail_from_network idOrName (detail_cache_key idOrName) env s in
  fetchPokemonDetail idOrName env s
  = mkOutcome (res o) (st o)
      (EvGetItem (detail_cache_key idOrName)
         (storage_read_ok env (detail_cache_key idOrName)) :: log o).
Proof.
  intros Hs o. unfold fetchPokemonDetail, bind.
  rewrite detail_from_cache_absent by assumption. subst o.
  destruct (detail_from_network _ _ env s) as [r s2 l2]. reflexivity.
Qed.

(** On a cached key whose read is accepted the call returns the parsed
    entry and does nothing else. *)
Lemma fetchPokemonDetail_hit env s idOrName j :
  s !! detail_cache_key idOrName = Some (JsonText j) →
  storage_read_ok env (detail_cache_key idOrName) = true →
  fetchPokemonDetail idOrName env s
  = mkOutcome (Ok (of_json j)) s [EvGetItem (detail_cache_key idOrName) true].
Proof.
  intros Hs Hr. unfold fetchPokemonDetail, bind.
  rewrite (detail_from_cache_hit env s _ j) by assumption. reflexivity.
Qed.

(** [fetchPokemonDetail] writes no key but its own. *)
Lemma fetchPokemonDetail_writes_own_key env s idOrName k :
  k ≠ detail_cache_key idOrName →
  wrote k (log (fetchPokemonDetail idOrName env s)) = false.
Proof.
  intros Hk. unfold fetchPokemonDetail, bind.
  destruct (detail_from_cache_run env s (detail_cache_key idOrName))
    as (c & b & ->). simpl.
  destruct c as [v|]; simpl; [reflexivity|].
  assert (Hlog : wrote k (log (detail_from_network idOrName
                                 (detail_cache_key idOrName) env s)) = false).
  { unfold detail_from_network, primary_response, ok_document in *. run.
    destruct (http env (detail_url idOrName)) as [r|]; simpl; [|reflexivity].
    destruct (ok r); simpl; [|reflexivity].
    destruct (body r) as [j|]; simpl; [|reflexivity].
    destruct (fetch_speciesData_run env (of_json j) s) as (l & -> & Hw & _).
    simpl.
    destruct (pokemonDetail_of _ _); simpl.
    - destruct (storage_write_ok env _); simpl;
        rewrite !wrote_app, Hw; simpl; [|reflexivity].
      apply String.eqb_neq in Hk. rewrite Hk. reflexivity.
    - rewrite !wrote_app, Hw. reflexivity. }
  destruct (detail_from_network _ _ env s) as [r s2 l2]. exact Hlog.
Qed.

(** On a key that is not cached, with the cache write accepted. *)
Lemma fetchPokemonDetail_absent_cases env s idOrName :
  s !! detail_cache_key idOrName = None →
  storage_write_ok env (detail_cache_key idOrName) = true →
  res (fetchPokemonDetail idOrName env s)
  = Ok (match primary_response env idOrName with
        | Some j =>
            if detail_well_formed (of_json j)
            then detail_entry (of_json j) (speciesData_of env (of_json j))
            else VNull
        | None => VNull
        end).
Proof.
  intros Hs Hw. rewrite fetchPokemonDetail_absent by assumption. simpl.
  pose proof (detail_from_network_cases env s idOrName (detail_cache_key idOrName))
    as H. simpl in H. rewrite Hw in H.
  destruct (primary_response env idOrName) as [j|].
  - destruct (detail_well_formed (of_json j)); simpl in H; apply H.
  - apply H.
Qed.

End DetailRun.

(** ** [fetchPokemonDetail] *)

Section DetailClaims.

Import Scenario.

(** C9.  On a key that is not in the cache, a call that returns null has
    left the store as it was and has had no write accepted: the only write
    of [fetchPokemonDetail] is followed by the return of the entry. *)
Theorem fetchPokemonDetail_null_writes_nothing env s idOrName :
  s !! detail_cache_key idOrName = None →
  res (fetchPokemonDetail idOrName env s) = Ok VNull →
  st (fetchPokemonDetail idOrName env s) = s
  ∧ st (fetchPokemonDetail idOrName env s) !! detail_cache_key idOrName = None
  ∧ ∀ k, wrote k (log (fetchPokemonDetail idOrName env s)) = false.
Proof.
  intros Hs. rewrite fetchPokemonDetail_absent by assumption. simpl.
  pose proof (detail_from_network_cases env s idOrName (detail_cache_key idOrName))
    as H. simpl in H.
  destruct (primary_response env idOrName) as [j|].
  - destruct (detail_well_formed (of_json j) && storage_write_ok env _).
    + destruct H as (-> & _ & _). discriminate.
    + destruct H as (_ & -> & Hw). intros _. auto.
  - destruct H as (_ & -> & Hw). intros _. auto.
Qed.

Lemma fetchPokemonDetail_null_writes_nothing_witness :
  res (fetchPokemonDetail (VNum 25) offline ∅) = Ok VNull
  ∧ st (fetchPokemonDetail (VNum 25) offline ∅) = ∅.
Proof.
  assert (Hnull : res (fetchPokemonDetail (VNum 25) offline ∅) = Ok VNull)
    by (vm_compute; reflexivity).
  split; [exact Hnull|].
  apply (fetchPokemonDetail_null_writes_nothing offline ∅ (VNum 25));
    [reflexivity | exact Hnull].
Defined.

(** C6, amended.  On a key that is not in the cache and whose cache write is
    accepted, [fetchPokemonDetail] returns null exactly when the primary
    fetch fails (request failure, response not ok, body that does not
    parse) or yields a record that is not well formed; when the primary
    fetch yields a well-formed record, it returns the assembled entry, an
    object. *)
Theorem fetchPokemonDetail_null_iff env s idOrName :
  s !! detail_cache_key idOrName = None →
  storage_write_ok env (detail_cache_key idOrName) = true →
  (res (fetchPokemonDetail idOrName env s) = Ok VNull
   ↔ primary_response env idOrName = None
     ∨ ∃ j, primary_response env idOrName = Some j
            ∧ detail_well_formed (of_json j) = false)
  ∧ (∀ j, primary_response env idOrName = Some j →
          detail_well_formed (of_json j) = true →
          res (fetchPokemonDetail idOrName env s)
          = Ok (detail_entry (of_json j) (speciesData_of env (of_json j)))).
Proof.
  intros Hs Hw. rewrite (fetchPokemonDetail_absent_cases env s idOrName Hs Hw).
  destruct (primary_response env idOrName) as [j|].
  - destruct (detail_well_formed (of_json j)) eqn:Hwf.
    + split.
      * split; [discriminate|].
        intros [?|(j' & [= <-] & Hj')]; [discriminate|congruence].
      * intros j' [= <-] _. reflexivity.
    + split.
      * split; [eauto|reflexivity].
      * intros j' [= <-] ?. congruence.
  - split.
    + split; [auto|reflexivity].
    + intros j' [=].
Qed.

Lemma fetchPokemonDetail_null_iff_witness :
  (res (fetchPokemonDetail (VNum 25) offline ∅) = Ok VNull
   ↔ primary_response offline (VNum 25) = None
     ∨ ∃ j, primary_response offline (VNum 25) = Some j
            ∧ detail_well_formed (of_json j) = false)
  ∧ (∀ j, primary_response offline (VNum 25) = Some j →
          detail_well_formed (of_json j) = true →
          res (fetchPokemonDetail (VNum 25) offline ∅)
          = Ok (detail_entry (of_json j) (speciesData_of offline (of_json j)))).
Proof.
  apply (fetchPokemonDetail_null_iff offline ∅ (VNum 25)); reflexivity.
Defined.

(** C6 as stated fails.  First, the primary fetch succeeds with a
    well-formed record and the call still returns null, because the cache
    write is rejected.  Second, with a storage that accepts everything, the
    primary fetch succeeds with a record whose [types] is null and the call
    returns null. *)
Lemma fetchPokemonDetail_null_iff_counterexample :
  ((∅ : gmap string text) !! detail_cache_key (VNum 25) = None
   ∧ primary_response read_only (VNum 25) = Some pikachu_primary
   ∧ detail_well_formed (of_json pikachu_primary) = true
   ∧ res (fetchPokemonDetail (VNum 25) read_only ∅) = Ok VNull)
  ∧ (let env := platform true true (serve typeless_primary) None 0 "ios" in
     primary_response env (VNum 25) = Some typeless_primary
     ∧ res (fetchPokemonDetail (VNum 25) env ∅) = Ok VNull).
Proof. repeat split; vm_compute; reflexivity. Qed.

(** C5, amended.  On a key that is not in the cache, when the primary fetch
    yields a well-formed record, the species fetch fails and the cache write
    is accepted, [fetchPokemonDetail] returns the entry, whose [speciesData]
    is the empty object. *)
Theorem fetchPokemonDetail_species_failure env s idOrName j :
  s !! detail_cache_key idOrName = None →
  primary_response env idOrName = Some j →
  detail_well_formed (of_json j) = true →
  species_response env (of_json j) = None →
  storage_write_ok env (detail_cache_key idOrName) = true →
  res (fetchPokemonDetail idOrName env s)
  = Ok (detail_entry (of_json j) (VObj []))
  ∧ own_prop (detail_entry (of_json j) (VObj [])) "speciesData" = VObj []
  ∧ detail_entry (of_json j) (VObj []) ≠ VNull.
Proof.
  intros Hs Hp Hwf Hsp Hw.
  rewrite (fetchPokemonDetail_absent_cases env s idOrName Hs Hw), Hp, Hwf.
  unfold speciesData_of. rewrite Hsp.
  repeat split. discriminate.
Qed.

Lemma fetchPokemonDetail_species_failure_witness :
  res (fetchPokemonDetail (VNum 25)
         (platform true true (serve_without_species pikachu_primary) None 0 "ios") ∅)
  = Ok (detail_entry (of_json pikachu_primary) (VObj [])).
Proof.
  apply (fetchPokemonDetail_species_failure
           (platform true true (serve_without_species pikachu_primary) None 0 "ios")
           ∅ (VNum 25) pikachu_primary);
    reflexivity.
Defined.

(** C5 as stated fails.  First, the primary fetch succeeds, the species
    fetch fails, and the call returns null, because the cache write is
    rejected.  Second, with a storage that accepts everything, the primary
    fetch succeeds with a record whose [types] is null, the species fetch
    fails, and the call returns null. *)
Lemma fetchPokemonDetail_species_failure_counterexample :
  (let env := platform true false (serve_without_species pikachu_primary) None 0 "ios" in
   (∅ : gmap string text) !! detail_cache_key (VNum 25) = None
   ∧ primary_response env (VNum 25) = Some pikachu_primary
   ∧ species_response env (of_json pikachu_primary) = None
   ∧ res (fetchPokemonDetail (VNum 25) env ∅) = Ok VNull)
  ∧ (let env := platform true true (serve_without_species typeless_primary) None 0 "ios" in
     primary_response env (VNum 25) = Some typeless_primary
     ∧ species_response env (of_json typeless_primary) = None
     ∧ res (fetchPokemonDetail (VNum 25) env ∅) = Ok VNull).
Proof. repeat split; vm_compute; reflexivity. Qed.

(** C3, amended.  On the key 25, not in the cache, when the primary
    endpoint returns the Pikachu record, the species endpoint returns
    [{flavor_text_entries: []}] and the cache write is accepted,
    [fetchPokemonDetail(25)] returns exactly the expected entry. *)
Theorem fetchPokemonDetail_pikachu env s :
  s !! detail_cache_key (VNum 25) = None →
  primary_response env (VNum 25) = Some pikachu_primary →
  species_response env (of_json pikachu_primary) = Some pikachu_species →
  storage_write_ok env (detail_cache_key (VNum 25)) = true →
  res (fetchPokemonDetail (VNum 25) env s) = Ok pikachu_entry.
Proof.
  intros Hs Hp Hsp Hw.
  rewrite (fetchPokemonDetail_absent_cases env s (VNum 25) Hs Hw), Hp.
  unfold speciesData_of. rewrite Hsp. reflexivity.
Qed.

Lemma fetchPokemonDetail_pikachu_witness :
  res (fetchPokemonDetail (VNum 25) online ∅) = Ok pikachu_entry.
Proof.
  apply (fetchPokemonDetail_pikachu online ∅); reflexivity.
Defined.

(** C3 as stated fails: with the same two responses and the key not in the
    cache, the call returns null when the cache write is rejected. *)
Lemma fetchPokemonDetail_pikachu_counterexample :
  (∅ : gmap string text) !! detail_cache_key (VNum 25) = None
  ∧ primary_response read_only (VNum 25) = Some pikachu_primary
  ∧ species_response read_only (of_json pikachu_primary) = Some pikachu_species
  ∧ res (fetchPokemonDetail (VNum 25) read_only ∅) = Ok VNull
  ∧ Ok VNull ≠ Ok pikachu_entry.
Proof. repeat split; try (vm_compute; reflexivity). discriminate. Qed.

(** C2, amended.  After a first call for a key has had its write of the
    entry accepted (so it returned that entry, not null), a second call
    with the same key whose cache read is accepted makes no network call,
    leaves the store alone and returns the entry as it was written to the
    cache, that is [JSON.parse] of the [JSON.stringify] of the first
    value. *)
Theorem fetchPokemonDetail_second_call env1 env2 s idOrName :
  wrote (detail_cache_key idOrName) (log (fetchPokemonDetail idOrName env1 s)) = true →
  storage_read_ok env2 (detail_cache_key idOrName) = true →
  ∃ d, res (fetchPokemonDetail idOrName env1 s) = Ok d
       ∧ d ≠ VNull
       ∧ let o2 := fetchPokemonDetail idOrName env2
                     (st (fetchPokemonDetail idOrName env1 s)) in
         res o2 = Ok (of_json (to_json d))
         ∧ network_calls (log o2) = 0%nat
         ∧ st o2 = st (fetchPokemonDetail idOrName env1 s).
Proof.
  intros Hw Hr.
  assert (H1 : ∃ d, d ≠ VNull
                    ∧ res (fetchPokemonDetail idOrName env1 s) = Ok d
                    ∧ st (fetchPokemonDetail idOrName env1 s)
                        !! detail_cache_key idOrName
                      = Some (JsonText (to_json d))).
  { revert Hw. unfold fetchPokemonDetail at 1 2 3, bind.
    destruct (detail_from_cache_run env1 s (detail_cache_key idOrName))
      as (c & b & ->). simpl.
    destruct c as [v|]; simpl; [discriminate|].
    pose proof (detail_from_network_cases env1 s idOrName
                  (detail_cache_key idOrName)) as H. simpl in H.
    destruct (primary_response env1 idOrName) as [j|].
    - destruct (detail_well_formed (of_json j) && storage_write_ok env1 _).
      + destruct H as (Hres & Hst & _). intros _.
        destruct (detail_from_network _ _ env1 s) as [r s2 l2]. simpl in *.
        rewrite Hres, Hst. eexists. split; [|split; [reflexivity|]].
        * discriminate.
        * apply lookup_insert_eq.
      + destruct H as (_ & _ & Hno).
        destruct (detail_from_network _ _ env1 s) as [r s2 l2]. simpl in *.
        rewrite Hno. discriminate.
    - destruct H as (_ & _ & Hno).
      destruct (detail_from_network _ _ env1 s) as [r s2 l2]. simpl in *.
      rewrite Hno. discriminate. }
  destruct H1 as (d & Hd & Hres & Hst).
  exists d. split; [exact Hres|]. split; [exact Hd|]. simpl.
  rewrite (fetchPokemonDetail_hit env2 _ idOrName (to_json d) Hst Hr). simpl.
  repeat split.
Qed.

Lemma fetchPokemonDetail_second_call_witness :
  ∃ d, res (fetchPokemonDetail (VNum 25) online ∅) = Ok d
       ∧ d ≠ VNull
       ∧ let o2 := fetchPokemonDetail (VNum 25) offline
                     (st (fetchPokemonDetail (VNum 25) online ∅)) in
         res o2 = Ok (of_json (to_json d))
         ∧ network_calls (log o2) = 0%nat
         ∧ st o2 = st (fetchPokemonDetail (VNum 25) online ∅).
Proof.
  apply (fetchPokemonDetail_second_call online offline ∅ (VNum 25));
    vm_compute; reflexivity.
Defined.

(** C2 as stated fails.  First, the first call returns an entry and writes
    it to the cache, the second call is a cache hit, and the two values
    differ: the primary record has a type without a name, so the first call
    returns [types: [undefined]] while the cache holds [types: [null]].
    Second, a second call whose cache read is rejected goes to the network
    again. *)
Lemma fetchPokemonDetail_second_call_counterexample :
  (let env := platform true true (serve nameless_type_primary) None 0 "ios" in
   let o1 := fetchPokemonDetail (VNum 25) env ∅ in
   let o2 := fetchPokemonDetail (VNum 25) env (st o1) in
   wrote (detail_cache_key (VNum 25)) (log o1) = true
   ∧ res o1 = Ok (detail_entry (of_json nameless_type_primary)
                    (of_json pikachu_species))
   ∧ own_prop (detail_entry (of_json nameless_type_primary)
                 (of_json pikachu_species)) "types" = VArr [VUndef]
   ∧ log o2 = [EvGetItem (detail_cache_key (VNum 25)) true]
   ∧ (∃ d2, res o2 = Ok d2 ∧ own_prop d2 "types" = VArr [VNull])
   ∧ res o2 ≠ res o1)
  ∧ (let o1 := fetchPokemonDetail (VNum 25) online ∅ in
     let o2 := fetchPokemonDetail (VNum 25) unreadable (st o1) in
     wrote (detail_cache_key (VNum 25)) (log o1) = true
     ∧ res o1 = Ok pikachu_entry
     ∧ network_calls (log o2) = 2%nat).
Proof.
  repeat split; try (vm_compute; reflexivity).
  - eexists. split; vm_compute; reflexivity.
  - vm_compute. intros [=].
Qed.

End DetailClaims.

(** ** [fetchPokemonList] *)

Section ListRun.

Lemma list_key_not_detail_key idOrName :
  POKEMON_LIST_CACHE_KEY ≠ detail_cache_key idOrName.
Proof.
  unfold detail_cache_key, POKEMON_LIST_CACHE_KEY, POKEMON_DETAIL_CACHE_PREFIX.
  simpl. intros H. repeat (injection H as _ H). discriminate.
Qed.

Lemma detail_promise_no_list_write env s item :
  wrote POKEMON_LIST_CACHE_KEY (log (detail_promise item env s)) = false.
Proof.
  unfold detail_promise. run.
  destruct (get_prop item "name") as [name|e]; simpl; [|reflexivity].
  pose proof (fetchPokemonDetail_writes_own_key env s name _
                (list_key_not_detail_key name)) as H.
  destruct (fetchPokemonDetail name env s) as [r s2 l2]. exact H.
Qed.

Lemma Promise_all_wrote {A} key (calls : list (M A)) :
  Forall (λ c, ∀ env s, wrote key (log (c env s)) = false) calls →
  ∀ env s, wrote key (log (Promise_all calls env s)) = false.
Proof.
  induction 1 as [|c rest Hc _ IH]; intros env s; simpl; [reflexivity|].
  specialize (Hc env s).
  destruct (c env s) as [r1 s1 l1]. specialize (IH env s1).
  destruct (Promise_all rest env s1) as [r2 s2 l2]. simpl in *.
  rewrite wrote_app, Hc, IH. reflexivity.
Qed.

Lemma list_from_cache_run env s :
  ∃ c l, list_from_cache env s = mkOutcome (Ok c) s l
         ∧ (∀ k, wrote k l = false)
         ∧ (s !! POKEMON_LIST_CACHE_KEY = None → c = None).
Proof.
  unfold list_from_cache. run.
  destruct (storage_read_ok env _); simpl.
  2:{ do 2 eexists. split; [reflexivity|]. split; reflexivity. }
  destruct (s !! POKEMON_LIST_CACHE_KEY) as [t|]; simpl.
  2:{ do 2 eexists. split; [reflexivity|]. split; reflexivity. }
  destruct (text_truthy t); simpl.
  2:{ do 2 eexists. split; [reflexivity|]. split; [reflexivity|discriminate]. }
  destruct (JSON_parse t); simpl;
    do 2 eexists; (split; [reflexivity|]); (split; [reflexivity|discriminate]).
Qed.

Lemma list_from_cache_hit env s j :
  s !! POKEMON_LIST_CACHE_KEY = Some (JsonText j) →
  storage_read_ok env POKEMON_LIST_CACHE_KEY = true →
  list_from_cache env s
  = mkOutcome (Ok (Some (of_json j))) s
      [EvGetItem POKEMON_LIST_CACHE_KEY true;
       EvConsole Log "Returning full Pokedex from cache."].
Proof.
  intros Hs Hr. unfold list_from_cache. run.
  rewrite Hr. simpl. rewrite Hs. reflexivity.
Qed.

(** When the index is not obtained, the network path returns the empty list
    and leaves the store alone. *)
Lemma list_from_network_failure env s :
  index_response env = None →
  res (list_from_network env s) = Ok (VArr []) ∧ st (list_from_network env s) = s.
Proof.
  unfold index_response, ok_document, list_from_network. run.
  destruct (http env list_url) as [r|]; simpl; [|auto].
  destruct (ok r); simpl; [|auto].
  destruct (body r); simpl; [discriminate|auto].
Qed.

(** The network path writes the list key last, with the list it returns. *)
Lemma list_from_network_wrote env s :
  wrote POKEMON_LIST_CACHE_KEY (log (list_from_network env s)) = true →
  ∃ valid, res (list_from_network env s) = Ok (VArr valid)
           ∧ st (list_from_network env s) !! POKEMON_LIST_CACHE_KEY
             = Some (JsonText (to_json (VArr valid))).
Proof.
  unfold list_from_network. run.
  destruct (http env list_url) as [r|]; simpl; [|discriminate].
  destruct (ok r); simpl; [|discriminate].
  destruct (body r) as [j|]; simpl; [|discriminate].
  destruct (get_prop (of_json j) "results") as [entries|e]; simpl; [|discriminate].
  destruct (array_items entries) as [items|e]; simpl; [|discriminate].
  pose proof (Promise_all_wrote POKEMON_LIST_CACHE_KEY (map detail_promise items)) as Hno.
  specialize (Hno ltac:(apply Forall_forall; intros c Hc env' s';
                        apply list_elem_of_In, in_map_iff in Hc as (item & <- & _);
                        apply detail_promise_no_list_write) env s).
  destruct (Promise_all (map detail_promise items) env s) as [[results|e] s2 l2];
    simpl in *.
  - destruct (storage_write_ok env POKEMON_LIST_CACHE_KEY); simpl.
    + intros _. eexists. split; [reflexivity|]. apply lookup_insert_eq.
    + rewrite !wrote_app, Hno. discriminate.
  - rewrite !wrote_app, Hno. discriminate.
Qed.

End ListRun.

Section ListClaims.

Import Scenario.

(** C4.  When the list is not in the cache and the index is not obtained
    (the request fails, the response is not ok, or its body does not
    parse), [fetchPokemonList] returns the empty list: it ends with a
    value, not an exception, and leaves the store as it was. *)
Theorem fetchPokemonList_index_failure env s :
  s !! POKEMON_LIST_CACHE_KEY = None →
  index_response env = None →
  res (fetchPokemonList env s) = Ok (VArr [])
  ∧ st (fetchPokemonList env s) = s.
Proof.
  intros Hs Hi. unfold fetchPokemonList, bind.
  destruct (list_from_cache_run env s) as (c & l & -> & _ & Hc).
  rewrite (Hc Hs).
  destruct (list_from_network_failure env s Hi) as [Hres Hst].
  destruct (list_from_network env s) as [r s2 l2]. simpl in *. auto.
Qed.

Lemma fetchPokemonList_index_failure_witness :
  res (fetchPokemonList offline ∅) = Ok (VArr [])
  ∧ st (fetchPokemonList offline ∅) = ∅.
Proof.
  apply (fetchPokemonList_index_failure offline ∅); reflexivity.
Defined.

(** C1, amended.  After a first call has had its write of the list
    accepted, a second call whose cache read is accepted makes no network
    call, leaves the store alone and returns the list as it was written to
    the cache, that is [JSON.parse] of the [JSON.stringify] of the first
    list. *)
Theorem fetchPokemonList_second_call env1 env2 s :
  wrote POKEMON_LIST_CACHE_KEY (log (fetchPokemonList env1 s)) = true →
  storage_read_ok env2 POKEMON_LIST_CACHE_KEY = true →
  ∃ valid, res (fetchPokemonList env1 s) = Ok (VArr valid)
       ∧ let o2 := fetchPokemonList env2 (st (fetchPokemonList env1 s)) in
         res o2 = Ok (of_json (to_json (VArr valid)))
         ∧ network_calls (log o2) = 0%nat
         ∧ st o2 = st (fetchPokemonList env1 s).
Proof.
  intros Hw Hr.
  assert (H1 : ∃ valid, res (fetchPokemonList env1 s) = Ok (VArr valid)
                        ∧ st (fetchPokemonList env1 s) !! POKEMON_LIST_CACHE_KEY
                          = Some (JsonText (to_json (VArr valid)))).
  { revert Hw. unfold fetchPokemonList, bind.
    destruct (list_from_cache_run env1 s) as (c & l & -> & Hl & _).
    destruct c as [v|]; simpl.
    - rewrite wrote_app, Hl. discriminate.
    - pose proof (list_from_network_wrote env1 s) as H.
      destruct (list_from_network env1 s) as [r s2 l2]. simpl in *.
      rewrite wrote_app, Hl. simpl. exact H. }
  destruct H1 as (valid & Hres & Hst). exists valid. split; [exact Hres|].
  simpl.
  assert (H2 : fetchPokemonList env2 (st (fetchPokemonList env1 s))
               = mkOutcome (Ok (of_json (to_json (VArr valid))))
                   (st (fetchPokemonList env1 s))
                   [EvGetItem POKEMON_LIST_CACHE_KEY true;
                    EvConsole Log "Returning full Pokedex from cache."]).
  { unfold fetchPokemonList at 1, bind.
    rewrite (list_from_cache_hit env2 _ _ Hst Hr). reflexivity. }
  rewrite H2. cbn [res st log].
  repeat split.
Qed.

Lemma fetchPokemonList_second_call_witness :
  ∃ valid, res (fetchPokemonList online ∅) = Ok (VArr valid)
       ∧ let o2 := fetchPokemonList offline (st (fetchPokemonList online ∅)) in
         res o2 = Ok (of_json (to_json (VArr valid)))
         ∧ network_calls (log o2) = 0%nat
         ∧ st o2 = st (fetchPokemonList online ∅).
Proof.
  apply (fetchPokemonList_second_call online offline ∅); vm_compute; reflexivity.
Defined.

(** C1 as stated fails.  First, a second call whose cache read is rejected
    goes to the network again, although the first call wrote the list.
    Second, when a record has a type without a name the first call returns
    [types: [undefined]] and the second, a cache hit, [types: [null]]. *)
Lemma fetchPokemonList_second_call_counterexample :
  (let o1 := fetchPokemonList online ∅ in
   let o2 := fetchPokemonList unreadable (st o1) in
   wrote POKEMON_LIST_CACHE_KEY (log o1) = true
   ∧ res o1 = Ok (VArr [pikachu_entry])
   ∧ network_calls (log o2) = 3%nat)
  ∧ (let env := platform true true (serve nameless_type_primary) None 0 "ios" in
     let o1 := fetchPokemonList env ∅ in
     let o2 := fetchPokemonList env (st o1) in
     wrote POKEMON_LIST_CACHE_KEY (log o1) = true
     ∧ network_calls (log o2) = 0%nat
     ∧ res o2 ≠ res o1).
Proof.
  repeat split; try (vm_compute; reflexivity).
  vm_compute. intros [=].
Qed.

End ListClaims.

(** ** [getPokemonBasic] *)

Section BasicClaims.

Lemma mapR_basic_types items :
  mapR (λ t, let? ty := get_prop t "type" in Ok (opt_prop ty "name")) items
  = if forallb (λ t, negb (nullish t)) items
    then Ok (map (λ t, opt_prop (own_prop t "type") "name") items)
    else Throw TypeError.
Proof.
  induction items as [|t rest IH]; simpl; [reflexivity|].
  unfold get_prop at 1. destruct (nullish t); simpl; [reflexivity|].
  rewrite IH. destruct (forallb _ rest); reflexivity.
Qed.

Lemma js_or_policy official front :
  js_or (js_or official front) VNull = sprite_policy official front.
Proof.
  unfold js_or, sprite_policy.
  destruct (truthy official) eqn:Ho; simpl; rewrite ?Ho; [reflexivity|].
  destruct (truthy front) eqn:Hf; simpl; rewrite ?Hf; reflexivity.
Qed.

(** C7.  [getPokemonBasic] touches the storage neither for reading nor for
    writing, ends with a value whatever happens, and that value is the
    basic lookup of the response: null when the request fails, the response
    is not ok, the body does not parse or the record cannot be read, and
    otherwise the record whose sprite is the official artwork if present,
    else the default front sprite if present, else null. *)
Theorem getPokemonBasic_lookup env s idOrName :
  res (getPokemonBasic idOrName env s)
  = Ok (basic_lookup_of (basic_response env idOrName))
  ∧ st (getPokemonBasic idOrName env s) = s
  ∧ List.filter is_storage (log (getPokemonBasic idOrName env s)) = [].
Proof.
  unfold getPokemonBasic, basic_response, ok_document, basic_lookup_of. run.
  destruct (http env _) as [r|]; cbn [res st log]; [|auto].
  destruct (ok r); cbn [res st log negb]; [|auto].
  destruct (body r) as [j|]; cbn [res st log]; [|auto].
  generalize (of_json j) as record. intros record.
  unfold get_prop, basic_types, official_artwork, front_sprite.
  destruct (nullish record) eqn:Hn; simpl; [auto|].
  rewrite js_or_policy.
  destruct (own_prop record "types") as [| | | | |items|fields]; simpl; auto.
  rewrite mapR_basic_types.
  destruct (forallb _ items); simpl; auto.
Qed.

End BasicClaims.

(** ** [takeCapture] *)

Section CaptureClaims.

Import Scenario.

(** C10.  Without a camera reference [takeCapture] returns at once: no
    photo, no storage access, no notice, nothing logged at all, and the
    store is as it was. *)
Theorem takeCapture_without_camera env s scr :
  camera_current scr = false →
  takeCapture scr env s = mkOutcome (Ok tt) s [].
Proof. intros H. unfold takeCapture. rewrite H. reflexivity. Qed.

Lemma takeCapture_without_camera_witness :
  takeCapture (mkScreen false 25 (Some "url1")) android_phone
    {["captures" := JsonText (JArr [])]}
  = mkOutcome (Ok tt) {["captures" := JsonText (JArr [])]} [].
Proof.
  apply (takeCapture_without_camera android_phone
           {["captures" := JsonText (JArr [])]}
           (mkScreen false 25 (Some "url1"))).
  reflexivity.
Defined.

Lemma to_json_capture_entry scr photoUri timestamp :
  to_json (capture_entry scr photoUri timestamp)
  = capture_record (selectedPokemonId scr)
      ("pokemon-" +:+ pretty (selectedPokemonId scr))
      (selectedPokemonSprite scr) photoUri timestamp.
Proof.
  unfold capture_entry, capture_record, sprite_value.
  destruct (selectedPokemonSprite scr); reflexivity.
Qed.

(** One successful capture: the list it read, the photo it took, and the
    list it wrote. *)
Lemma takeCapture_success env s scr :
  captured (log (takeCapture scr env s)) = true →
  ∃ records path,
    captures_of s = Some records
    ∧ camera_takePhoto env = Some path
    ∧ st (takeCapture scr env s)
      = <["captures" := JsonText (JArr (records ++ [record_of scr env path]))]> s.
Proof.
  unfold takeCapture, captures_of, record_of, normalize_photoUri.
  destruct (camera_current scr); simpl; [|discriminate].
  run.
  destruct (camera_takePhoto env) as [path|]; cbn [res st log app]; [|discriminate].
  destruct (storage_read_ok env "captures"); cbn [res st log app]; [|discriminate].
  assert (Hpush : ∀ records uri ts,
    to_json (VArr (map of_json records ++ [capture_entry scr uri ts]))
    = JArr (records ++ [capture_record (selectedPokemonId scr)
                          ("pokemon-" +:+ pretty (selectedPokemonId scr))
                          (selectedPokemonSprite scr) uri ts])).
  { intros records uri ts. cbn [to_json]. rewrite map_app, map_to_json_of_json.
    cbn [map]. rewrite to_json_capture_entry. reflexivity. }
  destruct (s !! "captures") as [[j|raw]|] eqn:Hs; cbn [text_truthy].
  - destruct j as [| | | |records|fields];
      cbn [JSON_parse of_json array_push res st log app]; try discriminate.
    destruct (storage_write_ok env "captures"); cbn [res st log app];
      [|discriminate].
    intros _. exists records, path. repeat split.
    unfold JSON_stringify. rewrite Hpush. reflexivity.
  - destruct (String.eqb raw ""); cbn [negb JSON_parse res st log app];
      [|discriminate].
    cbn [array_push res st log app].
    destruct (storage_write_ok env "captures"); cbn [res st log app];
      [|discriminate].
    intros _. exists [], path. repeat split.
    specialize (Hpush []). cbn [map app] in Hpush.
    unfold JSON_stringify. rewrite Hpush. reflexivity.
  - cbn [array_push res st log app].
    destruct (storage_write_ok env "captures"); cbn [res st log app];
      [|discriminate].
    intros _. exists [], path. repeat split.
    specialize (Hpush []). cbn [map app] in Hpush.
    unfold JSON_stringify. rewrite Hpush. reflexivity.
Qed.

Lemma captures_of_insert s records :
  captures_of (<["captures" := JsonText (JArr records)]> s) = Some records.
Proof. unfold captures_of. rewrite lookup_insert_eq. reflexivity. Qed.

(** C8.  Two successful captures in a row, from any persisted list, leave
    the list with exactly two more records at its end, in the order of the
    captures (two records when the list was absent), each made of the
    selected id, the name, the overlay sprite, the photo URI (prefixed with
    [file://] on Android, as it is elsewhere) and the clock at the time of
    its capture. *)
Theorem takeCapture_twice env1 env2 scr1 scr2 s :
  captured (log (takeCapture scr1 env1 s)) = true →
  captured (log (takeCapture scr2 env2 (st (takeCapture scr1 env1 s)))) = true →
  ∃ records path1 path2,
    captures_of s = Some records
    ∧ camera_takePhoto env1 = Some path1
    ∧ camera_takePhoto env2 = Some path2
    ∧ captures_of (st (takeCapture scr2 env2 (st (takeCapture scr1 env1 s))))
      = Some (records ++ [record_of scr1 env1 path1; record_of scr2 env2 path2])%list
    ∧ (s !! "captures" = None →
       captures_of (st (takeCapture scr2 env2 (st (takeCapture scr1 env1 s))))
       = Some [record_of scr1 env1 path1; record_of scr2 env2 path2]).
Proof.
  intros H1 H2.
  destruct (takeCapture_success env1 s scr1 H1) as (records & path1 & Hs & Hp1 & Hst1).
  destruct (takeCapture_success env2 _ scr2 H2) as (records' & path2 & Hs' & Hp2 & Hst2).
  rewrite Hst1, captures_of_insert in Hs'. injection Hs' as <-.
  exists records, path1, path2.
  rewrite Hst2, captures_of_insert, <- app_assoc.
  repeat split; try assumption.
  intros Habsent. unfold captures_of in Hs. rewrite Habsent in Hs.
  injection Hs as <-. reflexivity.
Qed.

Lemma takeCapture_twice_witness :
  ∃ records path1 path2,
    captures_of ∅ = Some records
    ∧ camera_takePhoto android_phone = Some path1
    ∧ camera_takePhoto iphone = Some path2
    ∧ captures_of
        (st (takeCapture (mkScreen true 1 None) iphone
               (st (takeCapture (mkScreen true 25 (Some "url1")) android_phone ∅))))
      = Some (records ++ [record_of (mkScreen true 25 (Some "url1")) android_phone path1;
                          record_of (mkScreen true 1 None) iphone path2])%list
    ∧ ((∅ : gmap string text) !! "captures" = None →
       captures_of
         (st (takeCapture (mkScreen true 1 None) iphone
                (st (takeCapture (mkScreen true 25 (Some "url1")) android_phone ∅))))
       = Some [record_of (mkScreen true 25 (Some "url1")) android_phone path1;
               record_of (mkScreen true 1 None) iphone path2]).
Proof.
  apply (takeCapture_twice android_phone iphone
           (mkScreen true 25 (Some "url1")) (mkScreen true 1 None) ∅);
    vm_compute; reflexivity.
Defined.

End CaptureClaims.

(** ** The model run on concrete inputs *)

Section Runs.

Import Scenario.

(** The whole of a first [fetchPokemonDetail(25)]: one cache read, the two
    requests, the cache write. *)
Example fetchPokemonDetail_pikachu_log :
  log (fetchPokemonDetail (VNum 25) online ∅)
  = [EvGetItem "pokemon_detail_25" true;
     EvFetch "https://pokeapi.co/api/v2/pokemon/25";
     EvFetch "url2";
     EvSetItem "pokemon_detail_25" (JSON_stringify pikachu_entry) true].
Proof. vm_compute. reflexivity. Qed.

(** The index request goes to the first 21 entries. *)
Example list_url_value :
  list_url = "https://pokeapi.co/api/v2/pokemon?limit=21&offset=0".
Proof. vm_compute. reflexivity. Qed.

(** A number and the string of its digits share a cache key. *)
Example detail_cache_key_number_string :
  detail_cache_key (VNum 25) = detail_cache_key (VStr "25").
Proof. vm_compute. reflexivity. Qed.

(** The official artwork wins over the default front sprite; an artwork
    field holding null does not. *)
Example getPokemonBasic_official_artwork :
  let record sprites :=
    JObj [("id", JNum 25); ("name", JStr "pikachu"); ("sprites", sprites)] in
  basic_lookup_of
    (Some (record (JObj [("front_default", JStr "front.png");
                         ("other",
                          JObj [("official-artwork",
                                 JObj [("front_default", JStr "art.png")])])])))
  = VObj [("id", VNum 25); ("name", VStr "pikachu"); ("sprite", VStr "art.png");
          ("types", VArr [])]
  ∧ basic_lookup_of
      (Some (record (JObj [("front_default", JStr "front.png");
                           ("other",
                            JObj [("official-artwork",
                                   JObj [("front_default", JNull)])])])))
    = VObj [("id", VNum 25); ("name", VStr "pikachu"); ("sprite", VStr "front.png");
            ("types", VArr [])]
  ∧ basic_lookup_of (Some (record (JObj [])))
    = VObj [("id", VNum 25); ("name", VStr "pikachu"); ("sprite", VNull);
            ("types", VArr [])].
Proof. repeat split. Qed.

(** Two captures from an empty store, the first on Android. *)
Example takeCapture_twice_run :
  captures_of
    (st (takeCapture (mkScreen true 1 None) iphone
           (st (takeCapture (mkScreen true 25 (Some "url1")) android_phone ∅))))
  = Some [JObj [("id", JNum 25); ("name", JStr "pokemon-25");
                ("sprite", JStr "url1");
                ("photoUri", JStr "file:///data/photos/1.jpg");
                ("timestamp", JNum 1700000000000)];
          JObj [("id", JNum 1); ("name", JStr "pokemon-1");
                ("sprite", JNull);
                ("photoUri", JStr "file:///var/photos/2.jpg");
                ("timestamp", JNum 1700000060000)]].
Proof. vm_compute. reflexivity. Qed.

(** A capture over a stored string that is no JSON array reports failure
    and writes nothing. *)
Example takeCapture_over_garbage :
  let s : gmap string text := {["captures" := RawText "not json"]} in
  log (takeCapture (mkScreen true 25 None) android_phone s)
  = [EvTakePhoto "off"; EvGetItem "captures" true;
     EvConsole Err "capture err";
     EvAlert "Error" "Could not take picture. Check camera permission."]
  ∧ st (takeCapture (mkScreen true 25 None) android_phone s) !! "captures"
    = Some (RawText "not json").
Proof. split; vm_compute; reflexivity. Qed.

End Runs.

(** ** More on [fetchPokemonDetail] *)

Section DetailMore.

Import Scenario Scenario2.

Lemma fetch_speciesData_log env dd s :
  (network_calls (log (fetch_speciesData dd env s)) ≤ 1)%nat
  ∧ write_attempts (log (fetch_speciesData dd env s)) = 0%nat.
Proof.
  unfold fetch_speciesData. run.
  destruct (get_prop dd "species") as [sp|e]; simpl; [|auto].
  destruct (get_prop sp "url") as [u|e]; simpl; [|auto].
  destruct (http env (ToString u)) as [r|]; simpl; [|auto].
  destruct (body r) as [j|]; simpl; auto.
Qed.

Lemma write_attempts_app l1 l2 :
  write_attempts (l1 ++ l2) = (write_attempts l1 + write_attempts l2)%nat.
Proof. unfold write_attempts. rewrite List.filter_app, length_app. reflexivity. Qed.

Lemma network_calls_app l1 l2 :
  network_calls (l1 ++ l2) = (network_calls l1 + network_calls l2)%nat.
Proof. unfold network_calls. rewrite List.filter_app, length_app. reflexivity. Qed.

Ltac count :=
  unfold network_calls, write_attempts in *; simpl in *;
  rewrite ?List.filter_app, ?length_app; simpl; lia.

Lemma detail_from_network_log env s idOrName key :
  let o := detail_from_network idOrName key env s in
  (1 ≤ network_calls (log o) ≤ 2)%nat ∧ (write_attempts (log o) ≤ 1)%nat.
Proof.
  unfold detail_from_network. run.
  destruct (http env (detail_url idOrName)) as [r|]; cbn [res st log app]; [|count].
  destruct (ok r); cbn [res st log app negb]; [|count].
  destruct (body r) as [j|]; cbn [res st log app]; [|count].
  pose proof (fetch_speciesData_log env (of_json j) s) as [Hn Hw].
  destruct (fetch_speciesData_run env (of_json j) s) as (l & Heq & _).
  rewrite Heq in *. cbn [res st log app] in *.
  destruct (pokemonDetail_of _ _); cbn [res st log app].
  - destruct (storage_write_ok env key); cbn [res st log app]; count.
  - count.
Qed.

Lemma detail_from_network_total env s idOrName key :
  ∃ v, res (detail_from_network idOrName key env s) = Ok v.
Proof.
  pose proof (detail_from_network_cases env s idOrName key) as H. simpl in H.
  destruct (primary_response env idOrName) as [j|].
  - destruct (detail_well_formed (of_json j) && storage_write_ok env key);
      destruct H as (-> & _); eauto.
  - destruct H as (-> & _); eauto.
Qed.

Lemma detail_from_network_frame env s idOrName key k :
  k ≠ key →
  st (detail_from_network idOrName key env s) !! k = s !! k.
Proof.
  intros Hk.
  pose proof (detail_from_network_cases env s idOrName key) as H. simpl in H.
  destruct (primary_response env idOrName) as [j|].
  - destruct (detail_well_formed (of_json j) && storage_write_ok env key).
    + destruct H as (_ & -> & _). apply lookup_insert_ne. congruence.
    + destruct H as (_ & -> & _). reflexivity.
  - destruct H as (_ & -> & _). reflexivity.
Qed.

(** The result of the network path does not depend on the store. *)
Lemma detail_from_network_res env s s' idOrName key :
  res (detail_from_network idOrName key env s)
  = res (detail_from_network idOrName key env s').
Proof.
  pose proof (detail_from_network_cases env s idOrName key) as H.
  pose proof (detail_from_network_cases env s' idOrName key) as H'.
  simpl in H, H'.
  destruct (primary_response env idOrName) as [j|].
  - destruct (detail_well_formed (of_json j) && storage_write_ok env key);
      destruct H as (-> & _), H' as (-> & _); reflexivity.
  - destruct H as (-> & _), H' as (-> & _); reflexivity.
Qed.

Lemma detail_from_cache_cases env s key :
  ∃ b, (∃ j, s !! key = Some (JsonText j)
             ∧ detail_from_cache key env s
               = mkOutcome (Ok (Some (of_json j))) s [EvGetItem key b])
       ∨ detail_from_cache key env s = mkOutcome (Ok None) s [EvGetItem key b].
Proof.
  unfold detail_from_cache. run.
  destruct (storage_read_ok env key); cbn [res st log app]; [|eauto].
  destruct (s !! key) as [[j|raw]|]; cbn [text_truthy JSON_parse res st log app];
    [eauto| |eauto].
  destruct (negb (String.eqb raw "")); cbn [res st log app]; eauto.
Qed.

(** [fetchPokemonDetail] is its cache check, then, on a miss, its network
    path. *)
Lemma fetchPokemonDetail_split env s idOrName :
  let key := detail_cache_key idOrName in
  ∃ b, (∃ j, s !! key = Some (JsonText j)
             ∧ fetchPokemonDetail idOrName env s
               = mkOutcome (Ok (of_json j)) s [EvGetItem key b])
       ∨ (let o := detail_from_network idOrName key env s in
          fetchPokemonDetail idOrName env s
          = mkOutcome (res o) (st o) (EvGetItem key b :: log o)).
Proof.
  intros key. unfold fetchPokemonDetail, bind. fold key.
  destruct (detail_from_cache_cases env s key) as (b & [(j & Hj & ->)| ->]);
    exists b.
  - left. exists j. split; [exact Hj|reflexivity].
  - right. destruct (detail_from_network idOrName key env s) as [r s2 l2].
    reflexivity.
Qed.

(** X1.  [fetchPokemonDetail] never raises: whatever the storage and the
    network do, it ends with a value. *)
Theorem fetchPokemonDetail_never_throws env s idOrName :
  ∃ v, res (fetchPokemonDetail idOrName env s) = Ok v.
Proof.
  destruct (fetchPokemonDetail_split env s idOrName) as (b & [(j & _ & ->)| ->]).
  - eauto.
  - apply detail_from_network_total.
Qed.

(** X2.  [fetchPokemonDetail] makes at most two requests and calls
    [setItem] at most once. *)
Theorem fetchPokemonDetail_effort env s idOrName :
  (network_calls (log (fetchPokemonDetail idOrName env s)) ≤ 2)%nat
  ∧ (write_attempts (log (fetchPokemonDetail idOrName env s)) ≤ 1)%nat.
Proof.
  destruct (fetchPokemonDetail_split env s idOrName) as (b & [(j & _ & ->)| ->]).
  - count.
  - pose proof (detail_from_network_log env s idOrName (detail_cache_key idOrName))
      as H. count.
Qed.

Lemma fetchPokemonDetail_other_keys env s idOrName k :
  k ≠ detail_cache_key idOrName →
  st (fetchPokemonDetail idOrName env s) !! k = s !! k.
Proof.
  intros Hk.
  destruct (fetchPokemonDetail_split env s idOrName) as (b & [(j & _ & ->)| ->]).
  - reflexivity.
  - apply detail_from_network_frame, Hk.
Qed.

(** X3.  [fetchPokemonDetail] changes no entry of the store but the one
    under its own cache key, and that one it sets or leaves: it never
    removes an entry. *)
Theorem fetchPokemonDetail_frame env s idOrName k :
  (k ≠ detail_cache_key idOrName →
   st (fetchPokemonDetail idOrName env s) !! k = s !! k)
  ∧ (is_Some (s !! k) → is_Some (st (fetchPokemonDetail idOrName env s) !! k)).
Proof.
  split; [apply fetchPokemonDetail_other_keys|].
  intros Hsome.
  destruct (decide (k = detail_cache_key idOrName)) as [->|Hk].
  - destruct (fetchPokemonDetail_split env s idOrName) as (b & [(j & _ & ->)| ->]);
      [exact Hsome|]. cbn [st].
    pose proof (detail_from_network_cases env s idOrName
                  (detail_cache_key idOrName)) as H. simpl in H.
    destruct (primary_response env idOrName) as [j|].
    + destruct (detail_well_formed (of_json j) && storage_write_ok env _).
      * destruct H as (_ & -> & _). rewrite lookup_insert_eq. eauto.
      * destruct H as (_ & -> & _). exact Hsome.
    + destruct H as (_ & -> & _). exact Hsome.
  - rewrite fetchPokemonDetail_other_keys by assumption. exact Hsome.
Qed.


Lemma fetchPokemonDetail_frame_witness :
  st (fetchPokemonDetail (VNum 25) online gallery_store) !! "captures"
  = gallery_store !! "captures".
Proof.
  apply (proj1 (fetchPokemonDetail_frame online gallery_store (VNum 25) "captures")).
  vm_compute. intros [=].
Defined.

End DetailMore.

Section DetailCache.

Import Scenario Scenario2.

(** X4.  Whenever [fetchPokemonDetail] returns a value other than null, the
    store afterwards holds exactly the JSON of that value under the cache
    key of the call: what is returned is what is cached. *)
Theorem fetchPokemonDetail_returns_cached env s idOrName d :
  res (fetchPokemonDetail idOrName env s) = Ok d →
  d ≠ VNull →
  st (fetchPokemonDetail idOrName env s) !! detail_cache_key idOrName
  = Some (JSON_stringify d).
Proof.
  destruct (fetchPokemonDetail_split env s idOrName) as (b & [(j & Hj & ->)| ->]);
    cbn [res st log].
  - intros [= <-] _. unfold JSON_stringify. rewrite to_json_of_json. exact Hj.
  - pose proof (detail_from_network_cases env s idOrName
                  (detail_cache_key idOrName)) as H. simpl in H.
    destruct (primary_response env idOrName) as [j|].
    + destruct (detail_well_formed (of_json j) && storage_write_ok env _).
      * destruct H as (-> & -> & _). intros [= <-] _. apply lookup_insert_eq.
      * destruct H as (-> & _). intros [= <-] Hd. congruence.
    + destruct H as (-> & _). intros [= <-] Hd. congruence.
Qed.

Lemma fetchPokemonDetail_returns_cached_witness :
  st (fetchPokemonDetail (VNum 25) online ∅) !! detail_cache_key (VNum 25)
  = Some (JSON_stringify pikachu_entry).
Proof.
  apply (fetchPokemonDetail_returns_cached online ∅ (VNum 25) pikachu_entry).
  - vm_compute. reflexivity.
  - discriminate.
Defined.

(** X5.  A cache entry that is not JSON (or is the empty string) counts as
    no entry: the call returns what it returns on the store without that
    entry. *)
Theorem fetchPokemonDetail_corrupt_entry env s idOrName raw :
  s !! detail_cache_key idOrName = Some (RawText raw) →
  res (fetchPokemonDetail idOrName env s)
  = res (fetchPokemonDetail idOrName env (delete (detail_cache_key idOrName) s)).
Proof.
  intros Hs.
  rewrite (fetchPokemonDetail_absent env (delete _ s))
    by apply lookup_delete_eq.
  destruct (fetchPokemonDetail_split env s idOrName) as (b & [(j & Hj & _)| ->]).
  - congruence.
  - cbn [res]. apply detail_from_network_res.
Qed.

Lemma fetchPokemonDetail_corrupt_entry_witness :
  res (fetchPokemonDetail (VNum 25) online corrupt_store)
  = res (fetchPokemonDetail (VNum 25) online
           (delete (detail_cache_key (VNum 25)) corrupt_store)).
Proof.
  apply (fetchPokemonDetail_corrupt_entry online corrupt_store (VNum 25) "{id:").
  vm_compute. reflexivity.
Defined.

(** X6.  The [ok] flag of the species response is never looked at: whatever
    document the species endpoint sends, an error body under a 404
    included, becomes the [speciesData] of the entry. *)
Theorem fetchPokemonDetail_species_status_ignored env s idOrName j r doc :
  s !! detail_cache_key idOrName = None →
  primary_response env idOrName = Some j →
  detail_well_formed (of_json j) = true →
  storage_write_ok env (detail_cache_key idOrName) = true →
  nullish (own_prop (of_json j) "species") = false →
  http env (ToString (own_prop (own_prop (of_json j) "species") "url")) = Some r →
  body r = Some doc →
  res (fetchPokemonDetail idOrName env s)
  = Ok (detail_entry (of_json j) (of_json doc)).
Proof.
  intros Hs Hp Hwf Hw Hsp Hr Hb.
  rewrite (fetchPokemonDetail_absent_cases env s idOrName Hs Hw), Hp, Hwf.
  unfold speciesData_of, species_response.
  assert (Hn : nullish (of_json j) = false).
  { unfold detail_well_formed in Hwf.
    destruct (nullish (of_json j)); [discriminate|reflexivity]. }
  rewrite (get_prop_ok _ _ Hn). cbn [rbind].
  rewrite (get_prop_ok _ _ Hsp), Hr, Hb. reflexivity.
Qed.

Lemma fetchPokemonDetail_species_status_ignored_witness :
  res (fetchPokemonDetail (VNum 25)
         (platform true true (serve_species_404 pikachu_primary) None 0 "ios") ∅)
  = Ok (detail_entry (of_json pikachu_primary) (of_json not_found_doc)).
Proof.
  apply (fetchPokemonDetail_species_status_ignored
           (platform true true (serve_species_404 pikachu_primary) None 0 "ios")
           ∅ (VNum 25) pikachu_primary
           (mkResponse false (Some not_found_doc)) not_found_doc);
    reflexivity.
Defined.

Lemma detail_cache_key_inj a b :
  detail_cache_key a = detail_cache_key b → ToString a = ToString b.
Proof.
  unfold detail_cache_key, POKEMON_DETAIL_CACHE_PREFIX. simpl.
  intros H. repeat (injection H as H). exact H.
Qed.

(** X7.  The cache key and the URL are made from the printed argument only:
    two arguments that print the same, as 25 and "25" do, give the very same
    outcome. *)
Theorem fetchPokemonDetail_printed_argument env s a b :
  ToString a = ToString b →
  fetchPokemonDetail a env s = fetchPokemonDetail b env s.
Proof.
  intros H.
  unfold fetchPokemonDetail, detail_from_network, detail_cache_key, detail_url.
  rewrite H. reflexivity.
Qed.

Lemma fetchPokemonDetail_printed_argument_witness :
  fetchPokemonDetail (VNum 25) online ∅ = fetchPokemonDetail (VStr "25") online ∅.
Proof.
  apply (fetchPokemonDetail_printed_argument online ∅ (VNum 25) (VStr "25")).
  vm_compute. reflexivity.
Defined.

(** X8.  Arguments that print differently have different cache keys, and a
    call for one leaves the cache entry of the other alone: fetching by id
    does not warm the cache for the name. *)
Theorem fetchPokemonDetail_no_cross_talk env s a b :
  ToString a ≠ ToString b →
  detail_cache_key a ≠ detail_cache_key b
  ∧ st (fetchPokemonDetail a env s) !! detail_cache_key b
    = s !! detail_cache_key b.
Proof.
  intros H.
  assert (Hk : detail_cache_key b ≠ detail_cache_key a).
  { intros Hk. apply H. symmetry. apply detail_cache_key_inj, Hk. }
  split; [congruence|].
  destruct (fetchPokemonDetail_split env s a) as (x & [(j & _ & ->)| ->]).
  - reflexivity.
  - apply detail_from_network_frame, Hk.
Qed.

Lemma fetchPokemonDetail_no_cross_talk_witness :
  detail_cache_key (VNum 25) ≠ detail_cache_key (VStr "pikachu")
  ∧ st (fetchPokemonDetail (VNum 25) online ∅) !! detail_cache_key (VStr "pikachu")
    = (∅ : gmap string text) !! detail_cache_key (VStr "pikachu").
Proof.
  apply (fetchPokemonDetail_no_cross_talk online ∅ (VNum 25) (VStr "pikachu")).
  vm_compute. intros [=].
Defined.

End DetailCache.

(** ** More on [fetchPokemonList] *)

Section ListMore.

Import Scenario Scenario2.

Lemma Promise_all_length {A} (calls : list (M A)) env s results :
  res (Promise_all calls env s) = Ok results →
  length results = length calls.
Proof.
  revert s results. induction calls as [|c rest IH]; intros s results; simpl.
  - intros [= <-]. reflexivity.
  - destruct (c env s) as [r1 s1 l1]. specialize (IH s1).
    destruct (Promise_all rest env s1) as [r2 s2 l2]. simpl in *.
    destruct r1 as [a|e]; [|discriminate].
    destruct r2 as [l|e]; [|discriminate].
    intros [= <-]. simpl. rewrite (IH l eq_refl). reflexivity.
Qed.

Lemma Promise_all_frame {A} k (calls : list (M A)) :
  Forall (λ c, ∀ env s, st (c env s) !! k = s !! k) calls →
  ∀ env s, st (Promise_all calls env s) !! k = s !! k.
Proof.
  induction 1 as [|c rest Hc _ IH]; intros env s; simpl; [reflexivity|].
  specialize (Hc env s).
  destruct (c env s) as [r1 s1 l1]. specialize (IH env s1).
  destruct (Promise_all rest env s1) as [r2 s2 l2]. simpl in *.
  congruence.
Qed.

Lemma prefix_append p x : String.prefix p (p +:+ x) = true.
Proof.
  induction p as [|c p IH]; simpl; [destruct x; reflexivity|].
  destruct (Ascii.ascii_dec c c); [exact IH|congruence].
Qed.

Lemma detail_promise_frame env s item k :
  String.prefix POKEMON_DETAIL_CACHE_PREFIX k = false →
  st (detail_promise item env s) !! k = s !! k.
Proof.
  intros Hk. unfold detail_promise. run.
  destruct (get_prop item "name") as [name|e]; cbn [res st log]; [|reflexivity].
  pose proof (fetchPokemonDetail_other_keys env s name k) as H.
  destruct (fetchPokemonDetail name env s) as [r s2 l2]. cbn [st] in *.
  apply H. intros ->. unfold detail_cache_key in Hk.
  rewrite prefix_append in Hk. discriminate.
Qed.

Lemma forallb_filter_same {A} (f : A → bool) l :
  forallb f (List.filter f l) = true.
Proof.
  induction l as [|x l IH]; simpl; [reflexivity|].
  destruct (f x) eqn:Hx; simpl; [rewrite Hx|]; exact IH.
Qed.

Lemma filter_length_bound {A} (f : A → bool) l :
  (length (List.filter f l) ≤ length l)%nat.
Proof.
  induction l as [|x l IH]; simpl; [lia|]. destruct (f x); simpl; lia.
Qed.

(** The network path of [fetchPokemonList]: what it returns and where it
    writes. *)
Lemma list_from_network_shape env s :
  let o := list_from_network env s in
  (∃ l, res o = Ok (VArr l)
        ∧ forallb not_null l = true
        ∧ (length l ≤ length (index_items env))%nat
        ∧ (storage_write_ok env POKEMON_LIST_CACHE_KEY = false → l = []))
  ∧ (∀ k, k ≠ POKEMON_LIST_CACHE_KEY →
          String.prefix POKEMON_DETAIL_CACHE_PREFIX k = false →
          st o !! k = s !! k).
Proof.
  unfold list_from_network, index_items, index_response, ok_document. run.
  destruct (http env list_url) as [r|]; cbn [res st log app].
  2:{ split; [exists []; repeat split; simpl; lia|reflexivity]. }
  destruct (ok r); cbn [res st log app negb].
  2:{ split; [exists []; repeat split; simpl; lia|reflexivity]. }
  destruct (body r) as [j|]; cbn [res st log app].
  2:{ split; [exists []; repeat split; simpl; lia|reflexivity]. }
  unfold get_prop.
  destruct (nullish (of_json j)); cbn [res st log app].
  { split; [exists []; repeat split; simpl; lia|reflexivity]. }
  destruct (own_prop (of_json j) "results") as [| | | | |items|fields];
    cbn [array_items res st log app];
    try (split; [exists []; repeat split; simpl; lia|reflexivity]).
  pose proof (Promise_all_length (map detail_promise items) env s) as Hlen.
  assert (Hframe : ∀ k, String.prefix POKEMON_DETAIL_CACHE_PREFIX k = false →
            st (Promise_all (map detail_promise items) env s) !! k = s !! k).
  { intros k Hk. apply Promise_all_frame. apply Forall_forall.
    intros c Hc env' s'.
    apply list_elem_of_In, in_map_iff in Hc as (item & <- & _).
    apply detail_promise_frame, Hk. }
  destruct (Promise_all (map detail_promise items) env s) as [[results|e] s2 l2];
    cbn [res st log app] in *.
  - specialize (Hlen results eq_refl). rewrite length_map in Hlen.
    destruct (storage_write_ok env POKEMON_LIST_CACHE_KEY); cbn [res st log app].
    + split.
      * exists (List.filter not_null results). repeat split.
        -- apply forallb_filter_same.
        -- rewrite <- Hlen. apply filter_length_bound.
        -- discriminate.
      * intros k Hk1 Hk2. rewrite lookup_insert_ne by congruence.
        apply Hframe, Hk2.
    + split; [exists []; repeat split; simpl; lia|].
      intros k Hk1 Hk2. apply Hframe, Hk2.
  - split; [exists []; repeat split; simpl; lia|].
    intros k Hk1 Hk2. apply Hframe, Hk2.
Qed.

(** X9.  [fetchPokemonList] never raises: whatever the storage and the
    network do, it ends with a value. *)
Theorem fetchPokemonList_never_throws env s :
  ∃ v, res (fetchPokemonList env s) = Ok v.
Proof.
  unfold fetchPokemonList, bind.
  destruct (list_from_cache_run env s) as (c & l & -> & _ & _).
  destruct c as [v|]; [eauto|].
  destruct (list_from_network_shape env s) as [(l' & H & _) _].
  destruct (list_from_network env s) as [r s2 l2]. cbn [res] in *. eauto.
Qed.

(** X10.  [fetchPokemonList] changes no entry of the store other than the
    list cache and the detail caches (keys starting with
    [pokemon_detail_]); the persisted captures, for one, stay as they
    are. *)
Theorem fetchPokemonList_frame env s k :
  k ≠ POKEMON_LIST_CACHE_KEY →
  String.prefix POKEMON_DETAIL_CACHE_PREFIX k = false →
  st (fetchPokemonList env s) !! k = s !! k.
Proof.
  intros Hk1 Hk2. unfold fetchPokemonList, bind.
  destruct (list_from_cache_run env s) as (c & l & -> & _ & _).
  destruct c as [v|]; [reflexivity|].
  destruct (list_from_network_shape env s) as [_ H].
  destruct (list_from_network env s) as [r s2 l2]. cbn [st] in *.
  apply H; assumption.
Qed.

Lemma fetchPokemonList_frame_witness :
  st (fetchPokemonList online gallery_store) !! "captures"
  = gallery_store !! "captures".
Proof.
  apply (fetchPokemonList_frame online gallery_store "captures").
  - vm_compute. intros [=].
  - reflexivity.
Defined.

(** X11.  When the list is not in the cache, [fetchPokemonList] returns an
    array that holds no null and has at most as many entries as the index
    page: entries whose detail could not be fetched are dropped, none is
    added. *)
Theorem fetchPokemonList_drops_failures env s :
  s !! POKEMON_LIST_CACHE_KEY = None →
  ∃ l, res (fetchPokemonList env s) = Ok (VArr l)
       ∧ forallb not_null l = true
       ∧ (length l ≤ length (index_items env))%nat.
Proof.
  intros Hs. unfold fetchPokemonList, bind.
  destruct (list_from_cache_run env s) as (c & l & -> & _ & Hc).
  rewrite (Hc Hs).
  destruct (list_from_network_shape env s) as [(l' & H1 & H2 & H3 & _) _].
  destruct (list_from_network env s) as [r s2 l2]. cbn [res] in *. eauto.
Qed.

Lemma fetchPokemonList_drops_failures_witness :
  ∃ l, res (fetchPokemonList online ∅) = Ok (VArr l)
       ∧ forallb not_null l = true
       ∧ (length l ≤ length (index_items online))%nat.
Proof.
  apply (fetchPokemonList_drops_failures online ∅). reflexivity.
Defined.

(** X12.  When the list is not in the cache and the write of the list cache
    is rejected, [fetchPokemonList] returns the empty list, whatever it had
    fetched. *)
Theorem fetchPokemonList_write_rejected env s :
  s !! POKEMON_LIST_CACHE_KEY = None →
  storage_write_ok env POKEMON_LIST_CACHE_KEY = false →
  res (fetchPokemonList env s) = Ok (VArr []).
Proof.
  intros Hs Hw. unfold fetchPokemonList, bind.
  destruct (list_from_cache_run env s) as (c & l & -> & _ & Hc).
  rewrite (Hc Hs).
  destruct (list_from_network_shape env s) as [(l' & H1 & _ & _ & H4) _].
  destruct (list_from_network env s) as [r s2 l2]. cbn [res] in *.
  rewrite H1, (H4 Hw). reflexivity.
Qed.

Lemma fetchPokemonList_write_rejected_witness :
  res (fetchPokemonList list_write_rejected ∅) = Ok (VArr []).
Proof.
  apply (fetchPokemonList_write_rejected list_write_rejected ∅); reflexivity.
Defined.

(** X20.  A warm list cache short-cuts everything: whatever JSON document
    is stored under the list key is returned as parsed, a list or not,
    with one storage read, no request and no write. *)
Theorem fetchPokemonList_warm env s j :
  s !! POKEMON_LIST_CACHE_KEY = Some (JsonText j) →
  storage_read_ok env POKEMON_LIST_CACHE_KEY = true →
  fetchPokemonList env s
  = mkOutcome (Ok (of_json j)) s
      [EvGetItem POKEMON_LIST_CACHE_KEY true;
       EvConsole Log "Returning full Pokedex from cache."].
Proof.
  intros Hs Hr. unfold fetchPokemonList, bind.
  rewrite (list_from_cache_hit env s j Hs Hr). reflexivity.
Qed.

Lemma fetchPokemonList_warm_witness :
  fetchPokemonList offline {[POKEMON_LIST_CACHE_KEY := JsonText (JObj [])]}
  = mkOutcome (Ok (VObj [])) {[POKEMON_LIST_CACHE_KEY := JsonText (JObj [])]}
      [EvGetItem POKEMON_LIST_CACHE_KEY true;
       EvConsole Log "Returning full Pokedex from cache."].
Proof.
  apply (fetchPokemonList_warm offline
           {[POKEMON_LIST_CACHE_KEY := JsonText (JObj [])]} (JObj []));
    reflexivity.
Defined.

End ListMore.

(** ** More on [getPokemonBasic], and the sprite effect *)

Section BasicMore.

Import Scenario Scenario2.

Lemma basic_url idOrName :
  "https://pokeapi.co/api/v2/pokemon/" +:+ ToString idOrName = detail_url idOrName.
Proof. reflexivity. Qed.

(** All of one call of [getPokemonBasic]. *)
Lemma getPokemonBasic_run env s idOrName :
  let o := getPokemonBasic idOrName env s in
  res o = Ok (basic_lookup_of (basic_response env idOrName))
  ∧ st o = s
  ∧ requests (log o) = [EvFetch (detail_url idOrName)]
  ∧ List.filter is_storage (log o) = []
  ∧ alerts (log o) = [].
Proof.
  unfold getPokemonBasic, basic_response, ok_document, basic_lookup_of. run.
  rewrite basic_url.
  destruct (http env _) as [r|]; cbn [res st log]; [|auto 6].
  destruct (ok r); cbn [res st log negb]; [|auto 6].
  destruct (body r) as [j|]; cbn [res st log]; [|auto 6].
  generalize (of_json j) as record. intros record.
  unfold get_prop, basic_types, official_artwork, front_sprite.
  destruct (nullish record) eqn:Hn; simpl; [auto 6|].
  rewrite js_or_policy.
  destruct (own_prop record "types") as [| | | | |items|fields]; simpl; auto 6.
  rewrite mapR_basic_types.
  destruct (forallb _ items); simpl; auto 6.
Qed.

(** X13.  [getPokemonBasic] makes exactly one request on every call, to the
    URL [fetchPokemonDetail] uses for the same argument, and shows no
    notice; nothing the store holds saves it the request. *)
Theorem getPokemonBasic_one_request env s idOrName :
  requests (log (getPokemonBasic idOrName env s)) = [EvFetch (detail_url idOrName)]
  ∧ alerts (log (getPokemonBasic idOrName env s)) = [].
Proof.
  destruct (getPokemonBasic_run env s idOrName) as (_ & _ & H1 & _ & H2). auto.
Qed.

Lemma sprite_policy_null_or_truthy official front :
  sprite_policy official front = VNull
  ∨ truthy (sprite_policy official front) = true.
Proof.
  unfold sprite_policy.
  destruct (truthy official) eqn:Ho; [auto|].
  destruct (truthy front) eqn:Hf; auto.
Qed.

(** The sprite of a basic lookup, null when the lookup is null. *)
Lemma basic_lookup_sprite response :
  (basic_lookup_of response = VNull ∧ opt_prop (basic_lookup_of response) "sprite" = VUndef)
  ∨ (∃ j, response = Some j
          ∧ nullish (basic_lookup_of response) = false
          ∧ opt_prop (basic_lookup_of response) "sprite"
            = sprite_policy (official_artwork (of_json j)) (front_sprite (of_json j))).
Proof.
  unfold basic_lookup_of. destruct response as [j|]; [|auto].
  destruct (nullish (of_json j)); [auto|].
  destruct (basic_types (of_json j)); [|auto].
  right. exists j. repeat split.
Qed.

(** X14.  The sprite effect always sets the overlay sprite, never reaches
    its [catch], and touches no storage: the sprite is the one
    [getPokemonBasic] chose, a value JavaScript counts as true, or null when
    the lookup failed or found no image. *)
Theorem sprite_effect_sets_sprite env s selectedPokemonId :
  ∃ v, res (sprite_effect selectedPokemonId env s) = Ok (Some v)
       ∧ (v = VNull ∨ truthy v = true)
       ∧ (basic_lookup_of (basic_response env (VNum selectedPokemonId)) = VNull →
          v = VNull)
       ∧ (∀ j, basic_response env (VNum selectedPokemonId) = Some j →
               basic_lookup_of (Some j) ≠ VNull →
               v = sprite_policy (official_artwork (of_json j))
                     (front_sprite (of_json j)))
       ∧ st (sprite_effect selectedPokemonId env s) = s
       ∧ List.filter is_storage (log (sprite_effect selectedPokemonId env s)) = [].
Proof.
  unfold sprite_effect. run.
  destruct (getPokemonBasic_run env s (VNum selectedPokemonId))
    as (Hres & Hst & _ & Hsto & _).
  destruct (getPokemonBasic (VNum selectedPokemonId) env s) as [r s2 l2].
  cbn [res st log] in *. subst r s2. cbn [res st log app].
  eexists. split; [reflexivity|]. rewrite app_nil_r.
  destruct (basic_lookup_sprite (basic_response env (VNum selectedPokemonId)))
    as [[Hnull ->]|(j & Hj & Hnn & ->)].
  - repeat split; auto.
    intros j Hj Hne. rewrite Hj in Hnull. contradiction.
  - pose proof (sprite_policy_null_or_truthy (official_artwork (of_json j))
                  (front_sprite (of_json j))) as Hp.
    assert (Hor : js_or (sprite_policy (official_artwork (of_json j))
                           (front_sprite (of_json j))) VNull
                  = sprite_policy (official_artwork (of_json j))
                      (front_sprite (of_json j))).
    { unfold js_or. destruct Hp as [-> | ->]; reflexivity. }
    rewrite Hor. repeat split; auto.
    + intros Hnull. rewrite Hnull in Hnn. discriminate.
    + intros j' Hj' _. rewrite Hj in Hj'. injection Hj' as <-. reflexivity.
Qed.

Lemma named_items_basic_types dd items :
  own_prop dd "types" = VArr items →
  named_items "type" (VArr items) = true →
  basic_types dd
  = Some (VArr (map (λ t, own_prop (own_prop t "type") "name") items)).
Proof.
  intros Ht Hn. unfold basic_types. rewrite Ht. simpl in Hn.
  assert (H : forallb (λ t, negb (nullish t)) items = true
              ∧ map (λ t, opt_prop (own_prop t "type") "name") items
                = map (λ t, own_prop (own_prop t "type") "name") items).
  { clear Ht. induction items as [|t rest IH]; simpl in *; [auto|].
    apply andb_prop in Hn as [Hn1 Hn2]. apply andb_prop in Hn1 as [Ha Hb].
    destruct (IH Hn2) as [-> ->]. rewrite Ha. split; [reflexivity|].
    unfold opt_prop. apply negb_true_iff in Hb. rewrite Hb. reflexivity. }
  destruct H as [-> ->]. reflexivity.
Qed.

(** X15.  On a well-formed record the light lookup and the full detail
    agree: [getPokemonBasic] and [fetchPokemonDetail] return the same [id],
    [name] and [types] for the same argument and response. *)
Theorem getPokemonBasic_agrees_with_detail env s s' idOrName j :
  s !! detail_cache_key idOrName = None →
  storage_write_ok env (detail_cache_key idOrName) = true →
  primary_response env idOrName = Some j →
  detail_well_formed (of_json j) = true →
  ∃ d b, res (fetchPokemonDetail idOrName env s) = Ok d
         ∧ res (getPokemonBasic idOrName env s') = Ok b
         ∧ nullish d = false ∧ nullish b = false
         ∧ own_prop b "id" = own_prop d "id"
         ∧ own_prop b "name" = own_prop d "name"
         ∧ own_prop b "types" = own_prop d "types".
Proof.
  intros Hs Hw Hp Hwf.
  rewrite (fetchPokemonDetail_absent_cases env s idOrName Hs Hw), Hp, Hwf.
  destruct (getPokemonBasic_run env s' idOrName) as (-> & _).
  assert (Hb : basic_response env idOrName = Some j).
  { unfold basic_response. rewrite basic_url. exact Hp. }
  rewrite Hb. unfold basic_lookup_of.
  unfold detail_well_formed in Hwf.
  apply andb_prop in Hwf as [Hwf _]. apply andb_prop in Hwf as [Hwf _].
  apply andb_prop in Hwf as [Hn Ht]. apply negb_true_iff in Hn. rewrite Hn.
  destruct (own_prop (of_json j) "types") as [| | | | |items|fields] eqn:Hty;
    try discriminate.
  rewrite (named_items_basic_types _ items Hty Ht).
  do 2 eexists. split; [reflexivity|]. split; [reflexivity|].
  unfold detail_entry. rewrite Hty. repeat split.
Qed.

Lemma getPokemonBasic_agrees_with_detail_witness :
  ∃ d b, res (fetchPokemonDetail (VNum 25) online ∅) = Ok d
         ∧ res (getPokemonBasic (VNum 25) online gallery_store) = Ok b
         ∧ nullish d = false ∧ nullish b = false
         ∧ own_prop b "id" = own_prop d "id"
         ∧ own_prop b "name" = own_prop d "name"
         ∧ own_prop b "types" = own_prop d "types".
Proof.
  apply (getPokemonBasic_agrees_with_detail online ∅ gallery_store (VNum 25)
           pikachu_primary); reflexivity.
Defined.

End BasicMore.

(** ** More on [takeCapture], and the view *)

Section CaptureMore.

Import Scenario Scenario2.

(** All of one call of [takeCapture] on a mounted camera. *)
Lemma takeCapture_run env s scr :
  camera_current scr = true →
  let o := takeCapture scr env s in
  res o = Ok tt
  ∧ captured (log o) = capture_possible env s
  ∧ alerts (log o)
    = (if capture_possible env s
       then [EvAlert "Captured!" "Pokemon saved to your gallery."]
       else [EvAlert "Error" "Could not take picture. Check camera permission."])
  ∧ (capture_possible env s = false → st o = s)
  ∧ (∀ k, k ≠ "captures" → st o !! k = s !! k)
  ∧ photos (log o) = [EvTakePhoto "off"]
  ∧ network_calls (log o) = 0%nat.
Proof.
  intros Hcam. unfold takeCapture, capture_possible, captures_of.
  rewrite Hcam. cbn [negb]. run.
  destruct (camera_takePhoto env) as [path|]; cbn [res st log app];
    [|repeat split; auto].
  destruct (storage_read_ok env "captures"); cbn [res st log app andb].
  2:{ destruct (s !! "captures") as [[[| | | | |]|raw]|];
        try destruct (String.eqb raw ""); repeat split; auto. }
  destruct (s !! "captures") as [[j|raw]|]; cbn [text_truthy].
  - destruct j as [| | | |records|fields];
      cbn [JSON_parse of_json array_push res st log app];
      try (repeat split; auto; discriminate).
    destruct (storage_write_ok env "captures"); cbn [res st log app];
      repeat split; auto; try discriminate.
    intros k Hk. apply lookup_insert_ne. congruence.
  - destruct (String.eqb raw ""); cbn [negb JSON_parse array_push res st log app];
      [|repeat split; auto].
    destruct (storage_write_ok env "captures"); cbn [res st log app];
      repeat split; auto; try discriminate.
    intros k Hk. apply lookup_insert_ne. congruence.
  - cbn [array_push res st log app].
    destruct (storage_write_ok env "captures"); cbn [res st log app];
      repeat split; auto; try discriminate.
    intros k Hk. apply lookup_insert_ne. congruence.
Qed.

(** X16.  On a mounted camera, [takeCapture] reports success exactly when
    the photo is taken, the read of the captures is accepted, the stored
    value is a list (absent, empty or a JSON array) and the write is
    accepted.  A stored string that does not parse, or parses to something
    other than an array, makes the capture fail. *)
Theorem takeCapture_succeeds_iff env s scr :
  camera_current scr = true →
  (captured (log (takeCapture scr env s)) = true
   ↔ (∃ path, camera_takePhoto env = Some path)
     ∧ storage_read_ok env "captures" = true
     ∧ (∃ records, captures_of s = Some records)
     ∧ storage_write_ok env "captures" = true).
Proof.
  intros Hcam.
  destruct (takeCapture_run env s scr Hcam) as (_ & -> & _).
  unfold capture_possible.
  destruct (camera_takePhoto env) as [path|].
  - destruct (captures_of s) as [records|].
    + split.
      * intros H. apply andb_prop in H as [-> ->]. eauto 6.
      * intros (_ & -> & _ & ->). reflexivity.
    + split; [discriminate|]. intros (_ & _ & (records & [=]) & _).
  - split; [discriminate|]. intros ((path & [=]) & _).
Qed.

Lemma takeCapture_succeeds_iff_witness :
  captured (log (takeCapture (mkScreen true 25 None) android_phone
                   odd_gallery_store)) = true
  ↔ (∃ path, camera_takePhoto android_phone = Some path)
    ∧ storage_read_ok android_phone "captures" = true
    ∧ (∃ records, captures_of odd_gallery_store = Some records)
    ∧ storage_write_ok android_phone "captures" = true.
Proof.
  apply (takeCapture_succeeds_iff android_phone odd_gallery_store
           (mkScreen true 25 None)).
  reflexivity.
Defined.

(** X17.  On a mounted camera, [takeCapture] never raises, asks for one
    photo with the flash off, and shows exactly one notice: the success
    notice, or the failure notice, in which case the store is left exactly
    as it was. *)
Theorem takeCapture_one_notice env s scr :
  camera_current scr = true →
  res (takeCapture scr env s) = Ok tt
  ∧ photos (log (takeCapture scr env s)) = [EvTakePhoto "off"]
  ∧ (alerts (log (takeCapture scr env s))
     = [EvAlert "Captured!" "Pokemon saved to your gallery."]
     ∨ (alerts (log (takeCapture scr env s))
        = [EvAlert "Error" "Could not take picture. Check camera permission."]
        ∧ st (takeCapture scr env s) = s)).
Proof.
  intros Hcam.
  destruct (takeCapture_run env s scr Hcam) as (Hr & _ & Ha & Hs & _ & Hp & _).
  split; [exact Hr|]. split; [exact Hp|].
  destruct (capture_possible env s); [left|right]; auto.
Qed.

Lemma takeCapture_one_notice_witness :
  res (takeCapture (mkScreen true 25 None) full_phone gallery_store) = Ok tt
  ∧ photos (log (takeCapture (mkScreen true 25 None) full_phone gallery_store))
    = [EvTakePhoto "off"]
  ∧ (alerts (log (takeCapture (mkScreen true 25 None) full_phone gallery_store))
     = [EvAlert "Captured!" "Pokemon saved to your gallery."]
     ∨ (alerts (log (takeCapture (mkScreen true 25 None) full_phone gallery_store))
        = [EvAlert "Error" "Could not take picture. Check camera permission."]
        ∧ st (takeCapture (mkScreen true 25 None) full_phone gallery_store)
          = gallery_store)).
Proof.
  apply (takeCapture_one_notice full_phone gallery_store (mkScreen true 25 None)).
  reflexivity.
Defined.

(** X18.  [takeCapture] changes no entry of the store but [captures], and
    makes no network call: the catalog caches are out of its reach. *)
Theorem takeCapture_frame env s scr k :
  k ≠ "captures" →
  st (takeCapture scr env s) !! k = s !! k
  ∧ network_calls (log (takeCapture scr env s)) = 0%nat.
Proof.
  intros Hk. destruct (camera_current scr) eqn:Hcam.
  - destruct (takeCapture_run env s scr Hcam) as (_ & _ & _ & _ & Hf & _ & Hn).
    auto.
  - unfold takeCapture. rewrite Hcam. split; reflexivity.
Qed.

Lemma takeCapture_frame_witness :
  st (takeCapture (mkScreen true 25 None) android_phone
        (st (fetchPokemonDetail (VNum 25) online ∅)))
    !! detail_cache_key (VNum 25)
  = st (fetchPokemonDetail (VNum 25) online ∅) !! detail_cache_key (VNum 25)
  ∧ network_calls
      (log (takeCapture (mkScreen true 25 None) android_phone
              (st (fetchPokemonDetail (VNum 25) online ∅)))) = 0%nat.
Proof.
  apply (takeCapture_frame android_phone _ (mkScreen true 25 None)
           (detail_cache_key (VNum 25))).
  vm_compute. intros [=].
Defined.

Lemma back_device_first devices d :
  back_device devices = Some d
  ↔ ∃ front rest, devices = (front ++ d :: rest)%list
                  ∧ position d = "back"
                  ∧ Forall (λ x, position x ≠ "back") front.
Proof.
  unfold back_device. induction devices as [|x devices IH]; simpl.
  - split; [discriminate|]. intros (front & rest & H & _).
    destruct front; discriminate.
  - destruct (String.eqb (position x) "back") eqn:Hx.
    + apply String.eqb_eq in Hx. split.
      * intros [= <-]. exists [], devices. repeat split; auto.
      * intros (front & rest & H & Hd & Hf). destruct front as [|y front].
        -- injection H as -> _. reflexivity.
        -- injection H as -> _. apply Forall_cons in Hf as [Hy _]. contradiction.
    + apply String.eqb_neq in Hx. rewrite IH. split.
      * intros (front & rest & -> & Hd & Hf). exists (x :: front), rest.
        repeat split; auto.
      * intros (front & rest & H & Hd & Hf). destruct front as [|y front].
        -- injection H as -> _. contradiction.
        -- injection H as -> ->. apply Forall_cons in Hf as [_ Hf]. eauto.
Qed.

(** X19.  The camera preview is rendered exactly when the permission
    request resolved to "granted" and the phone has a back camera, and it is
    given the first back camera of the list; with any other status a phone
    that has a back camera shows the missing-permission view, and a phone
    without one stays on the loading view whatever the status. *)
Theorem render_camera_preview status devices :
  (∀ d, render (permission_effect status) (back_device devices) = CameraPreview d
        ↔ status = "granted"
          ∧ ∃ front rest, devices = (front ++ d :: rest)%list
                          ∧ position d = "back"
                          ∧ Forall (λ x, position x ≠ "back") front)
  ∧ (status ≠ "granted" → back_device devices ≠ None →
     render (permission_effect status) (back_device devices) = NoCameraPermission)
  ∧ (back_device devices = None →
     render (permission_effect status) (back_device devices) = LoadingCamera).
Proof.
  unfold permission_effect. split; [|split].
  - intros d. rewrite <- back_device_first. unfold render. split.
    + destruct (String.eqb status "granted") eqn:Hs;
        destruct (back_device devices); try discriminate.
      intros [= ->]. apply String.eqb_eq in Hs. auto.
    + intros [Hs ->]. apply String.eqb_eq in Hs. rewrite Hs. reflexivity.
  - intros Hs Hd. apply String.eqb_neq in Hs. rewrite Hs.
    destruct (back_device devices); [reflexivity|contradiction].
  - intros ->. destruct (String.eqb status "granted"); reflexivity.
Qed.

Lemma render_camera_preview_witness :
  render (permission_effect "granted") (back_device phone_cameras)
  = CameraPreview (mkDevice "back-0" "back").
Proof.
  apply (proj1 (render_camera_preview "granted" phone_cameras)).
  split; [reflexivity|].
  exists [mkDevice "front-0" "front"], [mkDevice "back-1" "back"].
  repeat split. apply Forall_cons. split; [discriminate|apply Forall_nil; exact I].
Defined.

End CaptureMore.
